(** * pulse2percept.stimuli: pulses, pulse trains and stimulus parsing

    A shallow embedding of [pulse2percept/stimuli.py].

    Numbers.  Python floats are idealised as exact rationals in canonical
    form ([Qc]), so that two equal numbers are equal terms, as two equal
    floats are.  Sample counts are Python ints ([Z]); a numpy array of
    samples is a [list Qc].  Where a statement is about a value that
    the code computes by rounding arithmetic (the magnitudes of
    [image2pulsetrain]), the numbers are IEEE 754 doubles ([float]), in
    the module [Double].

    Errors.  A function that may raise returns a [result].  Every
    [raise] of the module is a [ValueError]; its message is kept, so
    that the place that raised can be told apart.  numpy's own refusals
    (a negative size, an empty reduction), a failed [assert] and an
    index out of range are results of the same kind. *)

From Stdlib Require Import ZArith QArith Qcanon Qround Qcabs.
From Stdlib Require Import String List Bool Lia.
From Stdlib Require Import Floats.
Import ListNotations.

Local Open Scope string_scope.
Local Open Scope Z_scope.
Local Open Scope list_scope.

(* ================================================================= *)
(** ** Exceptions and results *)

Inductive exn : Type :=
| ValueError (msg : string)
| IndexError (msg : string)
| AssertionError.

Inductive result (A : Type) : Type :=
| Ok (a : A)
| Raise (e : exn).

Arguments Ok {A} a.
Arguments Raise {A} e.

Definition bind {A B : Type} (m : result A) (k : A -> result B) : result B :=
  match m with
  | Ok a => k a
  | Raise e => Raise e
  end.

Notation "'do' x <- m ; k" := (bind m (fun x => k))
  (at level 10, x name, m at level 100, k at level 200,
   format "'[v' 'do'  x  <-  m ; '/' k ']'").

(* ================================================================= *)
(** ** Numbers: the float operations the module uses *)

(** A decimal literal [n / d]. *)
Definition dec (n : Z) (d : positive) : Qc := Q2Qc (n # d).

Definition Qcleb (x y : Qc) : bool := Qle_bool x y.
Definition Qcltb (x y : Qc) : bool := negb (Qle_bool y x).

(** The integer nearest to [x], a tie going to the even neighbour:
    numpy's [np.round] (which is [rint] for zero decimals) followed by
    [int], and Python 3's built-in [round]. *)
Definition rint (x : Qc) : Z :=
  let n := Qnum x in
  let d := Z.pos (Qden x) in
  let f := n / d in
  let r := n mod d in
  match 2 * r ?= d with
  | Lt => f
  | Gt => f + 1
  | Eq => if Z.even f then f else f + 1
  end.

(** [int(np.round(x))] *)
Definition np_round (x : Qc) : Z := rint x.

(** [int(round(x))] *)
Definition py_round (x : Qc) : Z := rint x.

(** [int(np.ceil(x))] *)
Definition np_ceil (x : Qc) : Z := Qceiling x.

(** [np.isclose(a, b)] with numpy's default tolerances:
    [abs(a - b) <= atol + rtol * abs(b)]. *)
Definition rtol : Qc := dec 1 100000.
Definition atol : Qc := dec 1 100000000.

Definition np_isclose (a b : Qc) : bool :=
  Qcleb (Qcabs (a - b)%Qc) (atol + rtol * Qcabs b)%Qc.

(* ================================================================= *)
(** ** numpy arrays of samples *)

Definition samples : Type := list Qc.

Definition negative_dimensions : exn :=
  ValueError "negative dimensions are not allowed".

(** [np.zeros(n)] and [np.ones(n)]: numpy refuses a negative size. *)
Definition np_zeros (n : Z) : result samples :=
  if n <? 0 then Raise negative_dimensions
  else Ok (repeat 0%Qc (Z.to_nat n)).

Definition np_ones (n : Z) : result samples :=
  if n <? 0 then Raise negative_dimensions
  else Ok (repeat 1%Qc (Z.to_nat n)).

(** [-a] and [c * a], sample by sample. *)
Definition np_neg (a : samples) : samples := map Qcopp a.
Definition np_scale (c : Qc) (a : samples) : samples := map (Qcmult c) a.

(** [a.size] *)
Definition size (a : samples) : Z := Z.of_nat (length a).

(** [np.sum(a)] *)
Definition np_sum (a : samples) : Qc := fold_right Qcplus 0%Qc a.

(** The Python slice [a[:n]]: the first [n] items, or, for a negative
    [n], all but the last [-n]. *)
Definition slice_to {A : Type} (n : Z) (a : list A) : list A :=
  if n <? 0 then firstn (length a - Z.to_nat (- n)) a
  else firstn (Z.to_nat n) a.

(* ================================================================= *)
(** ** utils.TimeSeries *)

(** Modelled from the spec: [utils.TimeSeries] is not among the sources.
    The spec's data model has it as an ordered sequence of real-valued
    samples plus a scalar sampling step; [TimeSeries.__init__(tsample,
    data)] stores the two. *)
Record TimeSeries : Type := mkTimeSeries {
  tsample : Qc;
  data : samples
}.

Definition tsample_error : exn :=
  ValueError "tsample must be a non-negative float.".

(* ================================================================= *)
(** ** MonophasicPulse *)

Definition ptype_error : exn :=
  ValueError "Acceptable values for `ptype` are 'anodic', 'cathodic'.".

(** [MonophasicPulse.__init__(ptype, pdur, tsample, delay_dur, stim_dur)];
    [stim_dur = None] is the default. *)
Definition MonophasicPulse (ptype : string) (pdur ts : Qc)
    (delay_dur : Qc) (stim_dur : option Qc) : result TimeSeries :=
  if Qcleb ts 0%Qc then Raise tsample_error
  else
    let stim_dur :=
      match stim_dur with
      | None => (pdur + delay_dur)%Qc
      | Some d => d
      end in
    let pulse_size := np_round (pdur / ts)%Qc in
    let delay_size := np_round (delay_dur / ts)%Qc in
    let stim_size := np_round (stim_dur / ts)%Qc in
    do pulse <-
      (if String.eqb ptype "cathodic" then
         do o <- np_ones pulse_size; Ok (np_neg o)
       else if String.eqb ptype "anodic" then np_ones pulse_size
       else Raise ptype_error);
    do z1 <- np_zeros delay_size;
    do z2 <- np_zeros stim_size;
    let pulse := z1 ++ pulse ++ z2 in
    Ok (mkTimeSeries ts (slice_to stim_size pulse)).

(* ================================================================= *)
(** ** BiphasicPulse *)

Definition biphasic_type_error : exn :=
  ValueError "Acceptable values for `type` are 'anodicfirst' or 'cathodicfirst'".

(** [BiphasicPulse.__init__(ptype, pdur, tsample, interphase_dur)] *)
Definition BiphasicPulse (ptype : string) (pdur ts : Qc)
    (interphase_dur : Qc) : result TimeSeries :=
  if Qcleb ts 0%Qc then Raise tsample_error
  else
    do on <- MonophasicPulse "anodic" pdur ts 0%Qc (Some pdur);
    do off <- MonophasicPulse "cathodic" pdur ts 0%Qc (Some pdur);
    do gap <- np_zeros (py_round (interphase_dur / ts)%Qc);
    if String.eqb ptype "cathodicfirst" then
      let pulse := data off ++ gap in
      let pulse := pulse ++ data on in
      Ok (mkTimeSeries ts pulse)
    else if String.eqb ptype "anodicfirst" then
      let pulse := data on ++ gap in
      let pulse := pulse ++ data off in
      Ok (mkTimeSeries ts pulse)
    else Raise biphasic_type_error.

(* ================================================================= *)
(** ** PulseTrain *)

Definition delay_error : exn :=
  ValueError "Delay cannot be negative.".
Definition pulse_size_error : exn :=
  ValueError "Single pulse must fit within 1/freq interval.".
Definition fit_error : exn :=
  ValueError "Pulse and delay must fit within 1/freq interval.".
Definition pulseorder_error : exn :=
  ValueError "Acceptable values for `pulseorder` are 'pulsefirst' or 'gapfirst'".

(** The loop [for j in range(n)] that appends one envelope per turn;
    the order token is looked at in every turn, so a wrong token raises
    only when the loop runs at least once. *)
Fixpoint envelopes (n : nat) (pulseorder : string)
    (delay pulse gap pulse_train : samples) : result samples :=
  match n with
  | O => Ok pulse_train
  | S n' =>
      if String.eqb pulseorder "pulsefirst" then
        envelopes n' pulseorder delay pulse gap
          (pulse_train ++ delay ++ pulse ++ gap)
      else if String.eqb pulseorder "gapfirst" then
        envelopes n' pulseorder delay pulse gap
          (pulse_train ++ delay ++ gap ++ pulse)
      else Raise pulseorder_error
  end.

(** [PulseTrain.__init__(tsample, freq, amp, dur, delay, pulse_dur,
    interphase_dur, pulsetype, pulseorder)].  The call of
    [logging.error] before the last [raise] writes to the log only and
    is left out. *)
Definition PulseTrain (ts freq amp dur delay pulse_dur interphase_dur : Qc)
    (pulsetype pulseorder : string) : result TimeSeries :=
  if Qcleb ts 0%Qc then Raise tsample_error
  else
    let stim_size := np_round (1 * dur / ts)%Qc in
    if np_isclose freq 0%Qc || np_isclose amp 0%Qc then
      do z <- np_zeros stim_size;
      Ok (mkTimeSeries ts z)
    else
      let envelope_size := np_round (1 / freq / ts)%Qc in
      let delay_size := np_round (1 * delay / ts)%Qc in
      if delay_size <? 0 then Raise delay_error
      else
        do delay <- np_zeros delay_size;
        do bp <- BiphasicPulse pulsetype pulse_dur ts interphase_dur;
        let pulse := np_scale amp (data bp) in
        let pulse_size := size pulse in
        if pulse_size <? 0 then Raise pulse_size_error
        else
          let gap_size := envelope_size - (delay_size + pulse_size) in
          if gap_size <? 0 then Raise fit_error
          else
            do gap <- np_zeros gap_size;
            do pulse_train <-
              envelopes (Z.to_nat (np_ceil (dur * freq)%Qc)) pulseorder
                delay pulse gap [];
            do pulse_train <-
              (if size pulse_train <? stim_size then
                 let fill_size := stim_size - size pulse_train in
                 do z <- np_zeros fill_size;
                 Ok (pulse_train ++ z)
               else Ok pulse_train);
            Ok (mkTimeSeries ts (slice_to stim_size pulse_train)).

(** The defaults of the keyword arguments. *)
Definition default_freq : Qc := dec 20 1.
Definition default_amp : Qc := dec 20 1.
Definition default_dur : Qc := dec 5 10.
Definition default_delay : Qc := 0%Qc.
Definition default_pulse_dur : Qc := (dec 45 100 / dec 1000 1)%Qc.
Definition default_interphase_dur : Qc := (dec 45 100 / dec 1000 1)%Qc.
Definition default_pulsetype : string := "cathodicfirst".
Definition default_pulseorder : string := "pulsefirst".

(* ================================================================= *)
(** ** Objects: waveforms held by reference *)

(** A Python variable holds a reference to an object.  The heap keeps
    the [TimeSeries] objects, a reference is an index into it, and a new
    object goes to the end, so that references already handed out stay
    valid.  A waveform object owns its array of samples. *)
Definition loc : Type := nat.
Definition heap : Type := list TimeSeries.

Definition empty_series : TimeSeries := mkTimeSeries 0%Qc [].

(** Dereference; a reference handed to the module points into the
    heap, the default is for the others. *)
Definition deref (h : heap) (l : loc) : TimeSeries := nth l h empty_series.

Definition alloc (h : heap) (v : TimeSeries) : loc * heap :=
  (length h, h ++ [v]).

(** [copy.deepcopy(x)] of one waveform: a new object with the same
    content. *)
Definition deepcopy (h : heap) (l : loc) : loc * heap :=
  alloc h (deref h l).

Fixpoint memo_find (memo : list (loc * loc)) (l : loc) : option loc :=
  match memo with
  | [] => None
  | (old, new) :: memo' =>
      if Nat.eqb old l then Some new else memo_find memo' l
  end.

(** [copy.deepcopy(xs)] of a list of waveforms: the memo of [deepcopy]
    copies an object met twice once only, so the copy shares what the
    original shares. *)
Fixpoint deepcopy_list (memo : list (loc * loc)) (xs : list loc) (h : heap)
    : list loc * heap :=
  match xs with
  | [] => ([], h)
  | x :: xs' =>
      match memo_find memo x with
      | Some y =>
          let (ys, h') := deepcopy_list memo xs' h in (y :: ys, h')
      | None =>
          let (y, h1) := deepcopy h x in
          let (ys, h2) := deepcopy_list ((x, y) :: memo) xs' h1 in
          (y :: ys, h2)
      end
  end.

(** [xs[i] = v] for an index in range (the only use has one). *)
Fixpoint list_set {A : Type} (xs : list A) (i : nat) (v : A) : list A :=
  match xs, i with
  | [], _ => []
  | _ :: xs', O => v :: xs'
  | x :: xs', S i' => x :: list_set xs' i' v
  end.

(** The in-place write [pt.data[i] = v] through the reference [l]. *)
Definition set_sample (h : heap) (l : loc) (i : nat) (v : Qc) : heap :=
  let ts := deref h l in
  list_set h l (mkTimeSeries (tsample ts) (list_set (data ts) i v)).

(** [np.zeros_like(a)] *)
Definition np_zeros_like (a : samples) : samples :=
  repeat 0%Qc (length a).

(* ================================================================= *)
(** ** implants.ElectrodeArray *)

(** Modelled from the spec: [implants.ElectrodeArray] and its electrodes
    are not among the sources.  The spec has the array as a fixed-order
    sequence of electrodes, each exposing its center coordinates, a
    radius and a name. *)
Record Electrode : Type := mkElectrode {
  name : string;
  x_center : Qc;
  y_center : Qc;
  radius : Qc
}.

Definition ElectrodeArray : Type := list Electrode.

(** Modelled from the spec: [implant.num_electrodes], the electrode
    count of the array. *)
Definition num_electrodes (implant : ElectrodeArray) : Z :=
  Z.of_nat (length implant).

(** Modelled from the spec: [implant.get_index(name)], the lookup by
    name that returns the index of the electrode or not-found ([None]);
    the first electrode of that name is the one found. *)
Fixpoint get_index_from (i : nat) (implant : ElectrodeArray) (key : string)
    : option nat :=
  match implant with
  | [] => None
  | e :: rest =>
      if String.eqb (name e) key then Some i
      else get_index_from (S i) rest key
  end.

Definition get_index (implant : ElectrodeArray) (key : string) : option nat :=
  get_index_from 0 implant key.

(* ================================================================= *)
(** ** parse_pulse_trains *)

(** The three shapes of [stim] the function tells apart: one waveform,
    a dict from electrode names to waveforms (in iteration order), and
    anything else, taken to be a list of waveforms. *)
Inductive stimulus : Type :=
| StimSeries (pt : loc)
| StimDict (items : list (string * loc))
| StimList (pts : list loc).

Definition too_many_electrodes : exn :=
  ValueError "More than 1 electrode given, use a list of pulse trains".
Definition unknown_electrode (key : string) : exn :=
  ValueError ("Could not find electrode with name '" ++ key ++ "'")%string.
Definition count_mismatch : exn :=
  ValueError "Number of pulse trains must match number of electrodes".
Definition no_first_key : exn :=
  IndexError "list index out of range".

(** [for key, value in stim.items(): ...] *)
Fixpoint assign_items (items : list (string * loc)) (implant : ElectrodeArray)
    (pt : list loc) (h : heap) : result (list loc * heap) :=
  match items with
  | [] => Ok (pt, h)
  | (key, value) :: items' =>
      match get_index implant key with
      | Some el_idx =>
          let (c, h') := deepcopy h value in
          assign_items items' implant (list_set pt el_idx c) h'
      | None => Raise (unknown_electrode key)
      end
  end.

(** [parse_pulse_trains(stim, implant)]: the list it returns and the
    heap after the call. *)
Definition parse_pulse_trains (stim : stimulus) (implant : ElectrodeArray)
    (h : heap) : result (list loc * heap) :=
  match stim with
  | StimSeries s =>
      if num_electrodes implant >? 1 then Raise too_many_electrodes
      else
        let (c, h') := deepcopy h s in
        Ok ([c], h')
  | StimDict items =>
      match items with
      | [] => Raise no_first_key
      | (_, first) :: _ =>
          let (pt_zero, h1) :=
            alloc h (mkTimeSeries (tsample (deref h first))
                       (np_zeros_like (data (deref h first)))) in
          let pt := repeat pt_zero (Z.to_nat (num_electrodes implant)) in
          assign_items items implant pt h1
      end
  | StimList pts =>
      if negb (Z.of_nat (length pts) =? num_electrodes implant)
      then Raise count_mismatch
      else Ok (deepcopy_list [] pts h)
  end.

(* ================================================================= *)
(** ** Two-dimensional arrays *)

(** A two-dimensional numpy array, row by row; every row has the same
    length. *)
Definition grid : Type := list (list Qc).

Definition n_rows (g : grid) : nat := length g.
Definition n_cols (g : grid) : nat := length (hd [] g).

(** A [r] by [c] array holding [v] everywhere. *)
Definition uniform (v : Qc) (r c : nat) : grid := repeat (repeat v c) r.

(** [g.T] *)
Fixpoint transpose (g : grid) : grid :=
  match g with
  | [] => []
  | row :: rest =>
      match rest with
      | [] => map (fun x => [x]) row
      | _ :: _ => map (fun p => fst p :: snd p) (combine row (transpose rest))
      end
  end.

(** [np.sum(g)] over all the cells. *)
Definition np_sum2 (g : grid) : Qc := np_sum (map np_sum g).

Fixpoint collect {A : Type} (rs : list (result A)) : result (list A) :=
  match rs with
  | [] => Ok []
  | r :: rs' =>
      do a <- r;
      do l <- collect rs';
      Ok (a :: l)
  end.

Definition broadcast_error : exn :=
  ValueError "operands could not be broadcast together".

(** numpy's broadcasting along one axis: equal lengths pair up, a
    length of one is repeated, anything else is refused. *)
Definition broadcast {A B C : Type} (f : A -> B -> result C)
    (xs : list A) (ys : list B) : result (list C) :=
  if Nat.eqb (length xs) (length ys) then
    collect (map (fun p => f (fst p) (snd p)) (combine xs ys))
  else
    match xs, ys with
    | [x], _ => collect (map (f x) ys)
    | _, [y] => collect (map (fun x => f x y) xs)
    | _, _ => Raise broadcast_error
    end.

(** [a * b] for two-dimensional arrays. *)
Definition np_mul2 (a b : grid) : result grid :=
  broadcast (broadcast (fun x y => Ok (x * y)%Qc)) a b.

Definition Qcmax (x y : Qc) : Qc := if Qcleb x y then y else x.
Definition Qcmin (x y : Qc) : Qc := if Qcleb x y then x else y.

Definition zero_size_max : exn :=
  ValueError "zero-size array to reduction operation maximum which has no identity".
Definition zero_size_min : exn :=
  ValueError "zero-size array to reduction operation minimum which has no identity".

(** [a.max()] and [a.min()]: numpy refuses an empty array. *)
Definition np_max (a : samples) : result Qc :=
  match a with
  | [] => Raise zero_size_max
  | x :: a' => Ok (fold_left Qcmax a' x)
  end.

Definition np_min (a : samples) : result Qc :=
  match a with
  | [] => Raise zero_size_min
  | x :: a' => Ok (fold_left Qcmin a' x)
  end.

(** [np.linspace(lo, hi, num)] *)
Definition np_linspace (lo hi : Qc) (num : nat) : samples :=
  match num with
  | O => []
  | S O => [lo]
  | S (S k) =>
      map (fun i => (lo + dec (Z.of_nat i) 1 * ((hi - lo) / dec (Z.of_nat (S k)) 1))%Qc)
          (seq 0 num)
  end.

(** [np.meshgrid(a, b)]: two arrays of [len(b)] rows and [len(a)]
    columns, the first with [a] in every row, the second with [b] down
    every column. *)
Definition np_meshgrid (a b : samples) : grid * grid :=
  (map (fun _ => a) b, map (fun y => map (fun _ => y) a) b).

(* ================================================================= *)
(** ** image2pulsetrain *)

Definition coding_error : exn :=
  ValueError "Acceptable values for `coding` are 'amplitude' or'frequency'.".
Definition too_many_indices : exn :=
  IndexError "too many indices for array".

(** [if magn.min() < magn.max(): magn = (magn - magn.min()) /
    (magn.max() - magn.min())], under [if max_contrast]. *)
Definition maximize_contrast (max_contrast : bool) (magn : samples)
    : result samples :=
  if max_contrast then
    do lo <- np_min magn;
    do hi <- np_max magn;
    if Qcltb lo hi then
      Ok (map (fun m => ((m - lo) / (hi - lo))%Qc) magn)
    else Ok magn
  else Ok magn.

(** [magn * np.diff(valrange) + valrange[0]] for [valrange = [lo, hi]]. *)
Definition scale_to_range (lo hi : Qc) (magn : samples) : samples :=
  map (fun m => (m * (hi - lo) + lo)%Qc) magn.

(** The body of the loop [for m in magn]: one pulse train whose
    amplitude or frequency is the magnitude. *)
Definition encode (coding : string) (const_amp const_freq : Qc)
    (ts dur pulsedur interphasedur : Qc) (pulsetype : string) (m : Qc)
    : result TimeSeries :=
  do af <-
    (if String.eqb coding "amplitude" then Ok (m, const_freq)
     else if String.eqb coding "frequency" then Ok (const_amp, m)
     else Raise coding_error);
  PulseTrain ts (snd af) (fst af) dur default_delay pulsedur interphasedur
    pulsetype default_pulseorder.

Section Image.

(** The collaborators: [skimage.transform.resize(img, shape)] and
    [Electrode.receptive_field(xg, yg, rftype, rfsize)]. *)
Variable resize : grid -> Qc * Qc -> grid.
Variable receptive_field :
  Electrode -> grid -> grid -> string -> option Qc -> grid.

(** [np.sum(rf.T * img_resize) / np.sum(rf)] for one electrode.  For
    weights that add up to zero numpy divides to [nan] or [inf], which
    exact numbers do not have, and numpy's sums round; the statements
    about this model depend on no magnitude, and [Double.magnitude] is
    the same line in double precision. *)
Definition magnitude (img_resize xg yg : grid) (rftype : string)
    (rfsize : option Qc) (e : Electrode) : result Qc :=
  let rf := receptive_field e xg yg rftype rfsize in
  do prod <- np_mul2 (transpose rf) img_resize;
  Ok (np_sum2 prod / np_sum2 rf)%Qc.

(** [image2pulsetrain] for an image given as a two-dimensional array
    (reading a file and the conversion from RGB are the image
    library's; the cast to [float32] is the identity on exact
    numbers, and is a rounding in [Double.image2pulsetrain]). *)
Definition image2pulsetrain (img : grid) (implant : ElectrodeArray)
    (coding : string) (valrange : list Qc) (max_contrast : bool)
    (const_amp const_freq : Qc) (rftype : string) (rfsize : option Qc)
    (invert : bool) (ts dur pulsedur interphasedur : Qc)
    (pulsetype : string) : result (list TimeSeries) :=
  match valrange with
  | [lo; hi] =>
      if negb (Qcltb lo hi) then Raise AssertionError
      else
        let img_orig := img in
        do top <- np_max (concat img_orig);
        let img_orig :=
          if Qcltb 1%Qc top
          then map (map (fun x => (x / dec 255 1)%Qc)) img_orig
          else img_orig in
        if negb (forallb (fun x => Qcleb 0%Qc x) (concat img_orig)
                 && forallb (fun x => Qcleb x 1%Qc) (concat img_orig))
        then Raise AssertionError
        else
          let img_orig :=
            if invert then map (map (fun x => (1 - x)%Qc)) img_orig
            else img_orig in
          match implant with
          | [] => Raise too_many_indices
          | _ :: _ =>
              do xlo <- np_min (map (fun e => (x_center e - radius e)%Qc) implant);
              do xhi <- np_max (map (fun e => (x_center e + radius e)%Qc) implant);
              do ylo <- np_min (map (fun e => (y_center e - radius e)%Qc) implant);
              do yhi <- np_max (map (fun e => (y_center e + radius e)%Qc) implant);
              let img_resize := resize img_orig ((yhi - ylo)%Qc, (xhi - xlo)%Qc) in
              let yg := np_linspace ylo yhi (n_rows img_resize) in
              let xg := np_linspace xlo xhi (n_cols img_resize) in
              let (yg, xg) := np_meshgrid yg xg in
              do magn <- collect (map (magnitude img_resize xg yg rftype rfsize) implant);
              do magn <- maximize_contrast max_contrast magn;
              let magn := scale_to_range lo hi magn in
              collect (map (encode coding const_amp const_freq ts dur
                              pulsedur interphasedur pulsetype) magn)
          end
  | _ => Raise AssertionError
  end.

End Image.

(* ================================================================= *)
(** ** image2pulsetrain in double precision *)

(** What [image2pulsetrain] computes from the pixels is floating-point
    arithmetic: a product, a sum or a quotient of doubles is rounded,
    so that the exact model above is the code only for the statements
    that depend on no value (how many pulse trains, of what length).
    The statements about the values are made on the module below,
    where a number of the image pipeline is an IEEE 754 double
    ([float], the kernel's binary64, with its [nan], infinities and
    signed zeros) and every operation rounds as the machine does.

    The coordinates of the electrodes go to the collaborators only and
    stay exact, and so do the arguments that are handed on to
    [PulseTrain]. *)

Module Double.

Definition array : Type := list float.
Definition matrix : Type := list (list float).

(** [np.full((r, c), v)] *)
Definition full (v : float) (r c : nat) : matrix := repeat (repeat v c) r.

(** The number that a double stands for; [nan] and the infinities
    stand for none. *)
Definition exact (x : float) : option Qc :=
  match Prim2SF x with
  | S754_zero _ => Some 0%Qc
  | S754_finite s m e =>
      let v := match e with
               | Z0 => Q2Qc (inject_Z (Z.pos m))
               | Z.pos p => Q2Qc (inject_Z (Z.pos m * 2 ^ Z.pos p))
               | Z.neg p => Q2Qc (Z.pos m # 2 ^ p)
               end in
      Some (if s then (- v)%Qc else v)
  | _ => None
  end.

(** [x.astype(np.float32)] for one number: the nearest number with a
    significand of 24 bits, a tie going to the even one, an infinity
    past the largest.  A [float32] is kept as the double of the same
    value. *)
Definition astype_float32 (x : float) : float :=
  match Prim2SF x with
  | S754_finite s m e => SF2Prim (binary_round 24 128 s m e)
  | _ => x
  end.

(** The operations on [float32] arrays: the quotient and the difference
    of two [float32] numbers rounded to [float32].  (Rounding the double
    result once more gives the [float32] result: 53 bits are more than
    twice 24 bits plus 2.) *)
Definition div32 (x y : float) : float := astype_float32 (x / y).
Definition sub32 (x y : float) : float := astype_float32 (x - y).

(** [np.maximum] and [np.minimum] of two numbers; a [nan] wins. *)
Definition maximum (a b : float) : float :=
  if (b <=? a)%float || is_nan a then a else b.
Definition minimum (a b : float) : float :=
  if (a <=? b)%float || is_nan a then a else b.

(** [a.max()] and [a.min()]: numpy refuses an empty array. *)
Definition amax (a : array) : result float :=
  match a with
  | [] => Raise zero_size_max
  | x :: a' => Ok (fold_left maximum a' x)
  end.

Definition amin (a : array) : result float :=
  match a with
  | [] => Raise zero_size_min
  | x :: a' => Ok (fold_left minimum a' x)
  end.

(** [g.T] *)
Fixpoint transpose (g : matrix) : matrix :=
  match g with
  | [] => []
  | row :: rest =>
      match rest with
      | [] => map (fun x => [x]) row
      | _ :: _ => map (fun p => fst p :: snd p) (combine row (transpose rest))
      end
  end.

(** [a * b] for two-dimensional arrays. *)
Definition np_mul2 (a b : matrix) : result matrix :=
  broadcast (broadcast (fun x y => Ok (x * y)%float)) a b.

(** The cells of an array added one after the other, row by row.  The
    order in which [np.sum] adds is numpy's own (pairwise, in blocks),
    and a sum of doubles depends on it; this one stands for [np.sum] in
    the instances below, where every addition is exact and every order
    gives the same sum. *)
Definition sequential_sum (g : matrix) : float :=
  fold_left PrimFloat.add (concat g) 0%float.

(** [if magn.min() < magn.max(): magn = (magn - magn.min()) /
    (magn.max() - magn.min())], under [if max_contrast]. *)
Definition maximize_contrast (max_contrast : bool) (magn : array)
    : result array :=
  if max_contrast then
    do lo <- amin magn;
    do hi <- amax magn;
    if (lo <? hi)%float then
      Ok (map (fun m => ((m - lo) / (hi - lo))%float) magn)
    else Ok magn
  else Ok magn.

(** [magn * np.diff(valrange) + valrange[0]] for [valrange = [lo, hi]]. *)
Definition scale_to_range (lo hi : float) (magn : array) : array :=
  map (fun m => (m * (hi - lo) + lo)%float) magn.

(** The body of the loop [for m in magn]: one pulse train whose
    amplitude or frequency is the magnitude.  A magnitude that is [nan]
    or infinite makes samples that are, which a [TimeSeries] of exact
    samples does not hold: the result is then [None], and no statement
    is made about it. *)
Definition encode (coding : string) (const_amp const_freq : Qc)
    (ts dur pulsedur interphasedur : Qc) (pulsetype : string) (m : float)
    : option (result TimeSeries) :=
  if negb (String.eqb coding "amplitude" || String.eqb coding "frequency")
  then Some (Raise coding_error)
  else
    match exact m with
    | Some v =>
        Some (encode coding const_amp const_freq ts dur pulsedur
                interphasedur pulsetype v)
    | None => None
    end.

(** The loop [for m in magn: ...; pulses.append(pt)]: it stops at the
    first pulse train that is refused. *)
Fixpoint encode_each (coding : string) (const_amp const_freq : Qc)
    (ts dur pulsedur interphasedur : Qc) (pulsetype : string) (magn : array)
    : option (result (list TimeSeries)) :=
  match magn with
  | [] => Some (Ok [])
  | m :: rest =>
      match encode coding const_amp const_freq ts dur pulsedur
              interphasedur pulsetype m with
      | None => None
      | Some (Raise e) => Some (Raise e)
      | Some (Ok pt) =>
          match encode_each coding const_amp const_freq ts dur pulsedur
                  interphasedur pulsetype rest with
          | None => None
          | Some pulses => Some (do l <- pulses; Ok (pt :: l))
          end
      end
  end.

Section Collaborators.

(** The collaborators: [np.sum] over all the cells of an array,
    [skimage.transform.resize(img, shape)] and
    [Electrode.receptive_field(xg, yg, rftype, rfsize)]. *)
Variable np_sum : matrix -> float.
Variable resize : matrix -> Qc * Qc -> matrix.
Variable receptive_field :
  Electrode -> grid -> grid -> string -> option Qc -> matrix.

(** [np.sum(rf.T * img_resize) / np.sum(rf)] for one electrode. *)
Definition magnitude (img_resize : matrix) (xg yg : grid) (rftype : string)
    (rfsize : option Qc) (e : Electrode) : result float :=
  let rf := receptive_field e xg yg rftype rfsize in
  do prod <- np_mul2 (transpose rf) img_resize;
  Ok (np_sum prod / np_sum rf)%float.

(** The magnitudes of the electrodes, scaled to the range: the function
    up to its last loop. *)
Definition magnitudes (img : matrix) (implant : ElectrodeArray)
    (valrange : list float) (max_contrast : bool)
    (rftype : string) (rfsize : option Qc) (invert : bool) : result array :=
  match valrange with
  | [lo; hi] =>
      if negb (lo <? hi)%float then Raise AssertionError
      else
        let img_orig := map (map astype_float32) img in
        do top <- amax (concat img_orig);
        let img_orig :=
          if (1 <? top)%float
          then map (map (fun x => div32 x 255%float)) img_orig
          else img_orig in
        if negb (forallb (fun x => (0 <=? x)%float) (concat img_orig)
                 && forallb (fun x => (x <=? 1)%float) (concat img_orig))
        then Raise AssertionError
        else
          let img_orig :=
            if invert then map (map (fun x => sub32 1%float x)) img_orig
            else img_orig in
          match implant with
          | [] => Raise too_many_indices
          | _ :: _ =>
              do xlo <- np_min (map (fun e => (x_center e - radius e)%Qc) implant);
              do xhi <- np_max (map (fun e => (x_center e + radius e)%Qc) implant);
              do ylo <- np_min (map (fun e => (y_center e - radius e)%Qc) implant);
              do yhi <- np_max (map (fun e => (y_center e + radius e)%Qc) implant);
              let img_resize := resize img_orig ((yhi - ylo)%Qc, (xhi - xlo)%Qc) in
              let yg := np_linspace ylo yhi (length img_resize) in
              let xg := np_linspace xlo xhi (length (hd [] img_resize)) in
              let (yg, xg) := np_meshgrid yg xg in
              do magn <- collect (map (magnitude img_resize xg yg rftype rfsize) implant);
              do magn <- maximize_contrast max_contrast magn;
              Ok (scale_to_range lo hi magn)
          end
  | _ => Raise AssertionError
  end.

(** [image2pulsetrain] for an image given as a two-dimensional array. *)
Definition image2pulsetrain (img : matrix) (implant : ElectrodeArray)
    (coding : string) (valrange : list float) (max_contrast : bool)
    (const_amp const_freq : Qc) (rftype : string) (rfsize : option Qc)
    (invert : bool) (ts dur pulsedur interphasedur : Qc)
    (pulsetype : string) : option (result (list TimeSeries)) :=
  match magnitudes img implant valrange max_contrast rftype rfsize invert with
  | Raise e => Some (Raise e)
  | Ok magn =>
      encode_each coding const_amp const_freq ts dur pulsedur interphasedur
        pulsetype magn
  end.

End Collaborators.

End Double.


(* ================================================================= *)
(** ** The vocabulary of the statements *)

(** The value of the samples of the phase. *)
Definition polarity (ptype : string) : Qc :=
  if String.eqb ptype "cathodic" then (- (1))%Qc else 1%Qc.

(** The array before the cut: the delay, the phase, the trailing zeros. *)
Definition monophasic_buffer (ptype : string)
    (delay_samples phase_samples stim_samples : Z) : samples :=
  repeat 0%Qc (Z.to_nat delay_samples)
  ++ repeat (polarity ptype) (Z.to_nat phase_samples)
  ++ repeat 0%Qc (Z.to_nat stim_samples).

(** The value of the samples of the phase that comes first. *)
Definition first_phase (ptype : string) : Qc :=
  if String.eqb ptype "cathodicfirst" then (- (1))%Qc else 1%Qc.

(** The two phases around the gap. *)
Definition biphasic_samples (ptype : string) (phase_samples gap_samples : Z)
    : samples :=
  repeat (first_phase ptype) (Z.to_nat phase_samples)
  ++ repeat 0%Qc (Z.to_nat gap_samples)
  ++ repeat (- first_phase ptype)%Qc (Z.to_nat phase_samples).

(** One envelope of a pulse train, in the order the token asks for. *)
Definition envelope (pulseorder : string) (delay pulse gap : samples)
    : samples :=
  if String.eqb pulseorder "pulsefirst" then delay ++ pulse ++ gap
  else delay ++ gap ++ pulse.

(** A sample of a pulse train of amplitude [amp]: zero, or the
    amplitude with either sign. *)
Definition level (amp x : Qc) : Prop :=
  x = 0%Qc \/ x = amp \/ x = (- amp)%Qc.

(** Every reference of the list points into the heap. *)
Definition valid_refs (h : heap) (refs : list loc) : Prop :=
  Forall (fun l => (l < length h)%nat) refs.

(** The references that a stimulus holds. *)
Definition refs_of (stim : stimulus) : list loc :=
  match stim with
  | StimSeries s => [s]
  | StimDict items => map snd items
  | StimList pts => pts
  end.

(** The memo of a deep copy that started from the heap [h0] and has got
    to the heap [h]: it sends objects of [h0] to copies made since,
    equal in content, and no two objects to the same copy. *)
Definition memo_ok (h0 h : heap) (memo : list (loc * loc)) : Prop :=
  (forall o n, memo_find memo o = Some n ->
     (o < length h0)%nat /\ (length h0 <= n < length h)%nat /\
     deref h n = deref h0 o) /\
  (forall o1 o2 n, memo_find memo o1 = Some n -> memo_find memo o2 = Some n ->
     o1 = o2).

(** The waveforms that a list of references stands for. *)
Definition contents (h : heap) (refs : list loc) : list TimeSeries :=
  map (deref h) refs.


(* ================================================================= *)
(** * Properties *)

(** ** Numbers and arrays *)

Lemma Qcleb_true (x y : Qc) : Qcleb x y = true <-> (x <= y)%Qc.
Proof. unfold Qcleb, Qcle. apply Qle_bool_iff. Qed.

Lemma Qcleb_false (x y : Qc) : Qcleb x y = false <-> (y < x)%Qc.
Proof.
  unfold Qcleb, Qclt. split; intro H.
  - apply Qnot_le_lt. intro L. apply Qle_bool_iff in L. congruence.
  - destruct (Qle_bool x y) eqn:E; [|reflexivity].
    apply Qle_bool_iff in E. exfalso. exact (Qlt_not_le _ _ H E).
Qed.

Lemma Qcltb_true (x y : Qc) : Qcltb x y = true <-> (x < y)%Qc.
Proof.
  unfold Qcltb. rewrite negb_true_iff. apply (Qcleb_false y x).
Qed.

Lemma Qcltb_irrefl (x : Qc) : Qcltb x x = false.
Proof.
  destruct (Qcltb x x) eqn:E; [|reflexivity].
  apply Qcltb_true in E. exfalso. exact (Qclt_not_eq _ _ E eq_refl).
Qed.

Example rint_ties :
  rint (dec 5 2) = 2 /\ rint (dec 7 2) = 4 /\ rint (dec (-5) 2) = -2 /\
  rint (dec 9 4) = 2 /\ rint (dec 11 4) = 3 /\ rint (dec (-1) 3) = 0.
Proof. repeat split. Qed.

Example slice_to_examples :
  slice_to 2 [1; 2; 3] = [1; 2] /\ slice_to 5 [1; 2; 3] = [1; 2; 3] /\
  slice_to (-1) [1; 2; 3] = [1; 2] /\ slice_to (-5) [1; 2; 3] = [].
Proof. repeat split. Qed.

(** A duration that is not negative has a count that is not negative. *)
Lemma rint_nonneg (x : Qc) : (0 <= x)%Qc -> 0 <= rint x.
Proof.
  intro H. unfold Qcle, Qle in H. simpl in H. rewrite Z.mul_1_r in H.
  unfold rint.
  assert (Hf : 0 <= Qnum x / Z.pos (Qden x)) by (apply Z.div_pos; lia).
  destruct (2 * (Qnum x mod Z.pos (Qden x)) ?= Z.pos (Qden x)); try lia.
  destruct (Z.even _); lia.
Qed.

Lemma Qcdiv_nonneg (x y : Qc) : (0 <= x)%Qc -> (0 < y)%Qc -> (0 <= x / y)%Qc.
Proof.
  intros Hx Hy. unfold Qcdiv.
  replace 0%Qc with (0 * / y)%Qc by ring.
  apply Qcmult_le_compat_r; [exact Hx|].
  unfold Qcle, Qclt in *. simpl.
  rewrite Qred_correct. apply Qlt_le_weak, Qinv_lt_0_compat. exact Hy.
Qed.

Lemma np_round_nonneg (dur ts : Qc) :
  (0 <= dur)%Qc -> (0 < ts)%Qc -> 0 <= np_round (dur / ts)%Qc.
Proof. intros Hd Hts. apply rint_nonneg, Qcdiv_nonneg; assumption. Qed.

(** Close to zero is at most [atol] away from it. *)
Lemma np_isclose_0 (x : Qc) :
  np_isclose x 0%Qc = true <-> (Qcabs x <= atol)%Qc.
Proof.
  unfold np_isclose.
  replace (x - 0)%Qc with x by ring.
  replace (atol + rtol * Qcabs 0)%Qc with atol.
  - apply Qcleb_true.
  - rewrite (Qcabs_pos 0%Qc) by apply Qcle_refl. ring.
Qed.

Lemma np_zeros_ok (n : Z) :
  0 <= n -> np_zeros n = Ok (repeat 0%Qc (Z.to_nat n)).
Proof.
  intro H. unfold np_zeros. destruct (n <? 0) eqn:E; [|reflexivity].
  apply Z.ltb_lt in E. lia.
Qed.

Lemma np_zeros_inv (n : Z) (z : samples) :
  np_zeros n = Ok z -> 0 <= n /\ z = repeat 0%Qc (Z.to_nat n).
Proof.
  unfold np_zeros. destruct (n <? 0) eqn:E; [discriminate|].
  apply Z.ltb_ge in E. intro H. injection H as <-. auto.
Qed.

Lemma np_ones_ok (n : Z) :
  0 <= n -> np_ones n = Ok (repeat 1%Qc (Z.to_nat n)).
Proof.
  intro H. unfold np_ones. destruct (n <? 0) eqn:E; [|reflexivity].
  apply Z.ltb_lt in E. lia.
Qed.

Lemma np_ones_inv (n : Z) (z : samples) :
  np_ones n = Ok z -> 0 <= n /\ z = repeat 1%Qc (Z.to_nat n).
Proof.
  unfold np_ones. destruct (n <? 0) eqn:E; [discriminate|].
  apply Z.ltb_ge in E. intro H. injection H as <-. auto.
Qed.

Lemma np_neg_repeat (x : Qc) (n : nat) :
  np_neg (repeat x n) = repeat (- x)%Qc n.
Proof. unfold np_neg. apply map_repeat. Qed.

Lemma slice_to_nonneg {A : Type} (n : Z) (a : list A) :
  0 <= n -> slice_to n a = firstn (Z.to_nat n) a.
Proof.
  intro H. unfold slice_to. destruct (n <? 0) eqn:E; [|reflexivity].
  apply Z.ltb_lt in E. lia.
Qed.

Lemma size_app (a b : samples) : size (a ++ b) = size a + size b.
Proof. unfold size. rewrite length_app. lia. Qed.

Lemma size_repeat (x : Qc) (n : Z) :
  0 <= n -> size (repeat x (Z.to_nat n)) = n.
Proof. intro H. unfold size. rewrite repeat_length. lia. Qed.

Lemma size_nonneg (a : samples) : 0 <= size a.
Proof. unfold size. lia. Qed.

Lemma bind_Ok {A B : Type} (a : A) (k : A -> result B) :
  bind (Ok a) k = k a.
Proof. reflexivity. Qed.

Lemma bind_Ok_inv {A B : Type} (m : result A) (k : A -> result B) (b : B) :
  bind m k = Ok b -> exists a, m = Ok a /\ k a = Ok b.
Proof. destruct m; simpl; [eauto | discriminate]. Qed.

(** ** MonophasicPulse *)

Lemma monophasic_phase (ptype : string) (n : Z) (pulse : samples) :
  ptype = "anodic" \/ ptype = "cathodic" ->
  (if String.eqb ptype "cathodic" then do o <- np_ones n; Ok (np_neg o)
   else if String.eqb ptype "anodic" then np_ones n
   else Raise ptype_error) = Ok pulse ->
  0 <= n /\ pulse = repeat (polarity ptype) (Z.to_nat n).
Proof.
  unfold polarity. intros [-> | ->]; simpl; intro H.
  - apply np_ones_inv in H. exact H.
  - apply bind_Ok_inv in H. destruct H as (o & Ho & H).
    apply np_ones_inv in Ho. destruct Ho as [Hn ->].
    injection H as <-. rewrite np_neg_repeat. auto.
Qed.

Lemma firstn_buffer_length (s : nat) (front : samples) :
  length (firstn s (front ++ repeat 0%Qc s)) = s.
Proof.
  rewrite length_firstn, length_app, repeat_length. lia.
Qed.

Section Monophasic.

Variables (ptype : string) (pdur ts delay_dur : Qc) (stim_dur : option Qc).
Hypothesis recognised : ptype = "anodic" \/ ptype = "cathodic".
Hypothesis ts_pos : (0 < ts)%Qc.

Let stim : Qc :=
  match stim_dur with
  | None => (pdur + delay_dur)%Qc
  | Some d => d
  end.
Let phase_samples : Z := np_round (pdur / ts)%Qc.
Let delay_samples : Z := np_round (delay_dur / ts)%Qc.
Let stim_samples : Z := np_round (stim / ts)%Qc.

Lemma MonophasicPulse_inv (p : TimeSeries) :
  MonophasicPulse ptype pdur ts delay_dur stim_dur = Ok p ->
  0 <= phase_samples /\ 0 <= delay_samples /\ 0 <= stim_samples /\
  tsample p = ts /\
  data p = firstn (Z.to_nat stim_samples)
             (monophasic_buffer ptype delay_samples phase_samples
                stim_samples) /\
  size (data p) = stim_samples.
Proof.
  pose proof ts_pos as Hts. apply Qcleb_false in Hts.
  unfold MonophasicPulse. rewrite Hts.
  fold stim. fold phase_samples. fold delay_samples. fold stim_samples.
  intro H.
  apply bind_Ok_inv in H. destruct H as (pulse & Hpulse & H).
  apply bind_Ok_inv in H. destruct H as (z1 & Hz1 & H).
  apply bind_Ok_inv in H. destruct H as (z2 & Hz2 & H).
  apply monophasic_phase in Hpulse; [|exact recognised].
  destruct Hpulse as [Hn ->].
  apply np_zeros_inv in Hz1. destruct Hz1 as [Hd ->].
  apply np_zeros_inv in Hz2. destruct Hz2 as [Hs ->].
  injection H as <-. simpl.
  rewrite slice_to_nonneg by exact Hs.
  repeat split; try assumption.
  unfold size, monophasic_buffer.
  rewrite app_assoc, firstn_buffer_length. lia.
Qed.

Lemma MonophasicPulse_returns :
  0 <= phase_samples -> 0 <= delay_samples -> 0 <= stim_samples ->
  exists p, MonophasicPulse ptype pdur ts delay_dur stim_dur = Ok p.
Proof.
  intros Hn Hd Hs.
  pose proof ts_pos as Hts. apply Qcleb_false in Hts.
  unfold MonophasicPulse. rewrite Hts.
  fold stim. fold phase_samples. fold delay_samples. fold stim_samples.
  assert (Hphase : exists pulse,
    (if String.eqb ptype "cathodic"
     then do o <- np_ones phase_samples; Ok (np_neg o)
     else if String.eqb ptype "anodic" then np_ones phase_samples
     else Raise ptype_error) = Ok pulse).
  { destruct recognised as [-> | ->]; simpl;
      rewrite np_ones_ok by exact Hn; simpl; eauto. }
  destruct Hphase as [pulse ->].
  rewrite (np_zeros_ok _ Hd), (np_zeros_ok _ Hs). simpl. eauto.
Qed.

End Monophasic.

(** C7.  For a recognised [ptype] and [tsample > 0], a call that returns
    has counts that are not negative, and its samples are the array
    [zeros(delay), +-ones(phase), zeros(stim)] cut to the first
    [stim_samples = round(stim_dur / tsample)], so exactly that many,
    with [stim_dur = pdur + delay_dur] by default; and the call does
    return whenever the three counts are not negative, also when delay
    plus phase is more than [stim_samples]: the pulse is then cut
    short, nothing is raised. *)
Theorem MonophasicPulse_cut_to_stim_samples
    (ptype : string) (pdur ts delay_dur : Qc) (stim_dur : option Qc) :
  ptype = "anodic" \/ ptype = "cathodic" ->
  (0 < ts)%Qc ->
  let stim := match stim_dur with
              | None => (pdur + delay_dur)%Qc
              | Some d => d
              end in
  let phase_samples := np_round (pdur / ts)%Qc in
  let delay_samples := np_round (delay_dur / ts)%Qc in
  let stim_samples := np_round (stim / ts)%Qc in
  (forall p, MonophasicPulse ptype pdur ts delay_dur stim_dur = Ok p ->
     0 <= phase_samples /\ 0 <= delay_samples /\ 0 <= stim_samples /\
     tsample p = ts /\
     data p = firstn (Z.to_nat stim_samples)
                (monophasic_buffer ptype delay_samples phase_samples
                   stim_samples) /\
     size (data p) = stim_samples) /\
  (0 <= phase_samples -> 0 <= delay_samples -> 0 <= stim_samples ->
   exists p, MonophasicPulse ptype pdur ts delay_dur stim_dur = Ok p).
Proof.
  intros Hp Hts stim phase_samples delay_samples stim_samples. split.
  - intros p H. exact (MonophasicPulse_inv _ _ _ _ _ Hp Hts p H).
  - exact (MonophasicPulse_returns _ _ _ _ _ Hp Hts).
Qed.

(** An anodic phase of 3 ms after a delay of 2 ms in a stimulus of 4 ms,
    sampled every millisecond: five samples are cut to four. *)
Lemma MonophasicPulse_cut_to_stim_samples_witness :
  exists p,
    MonophasicPulse "anodic" (dec 3 1000) (dec 1 1000) (dec 2 1000)
      (Some (dec 4 1000)) = Ok p /\
    size (data p) = 4 /\
    np_round (dec 2 1000 / dec 1 1000)%Qc
      + np_round (dec 3 1000 / dec 1 1000)%Qc = 5.
Proof.
  destruct (MonophasicPulse_cut_to_stim_samples "anodic" (dec 3 1000)
              (dec 1 1000) (dec 2 1000) (Some (dec 4 1000))
              (or_introl eq_refl) eq_refl) as [Hinv Hret].
  destruct Hret as [p Hp]; [vm_compute; discriminate ..|].
  exists p. split; [exact Hp|]. split; [|reflexivity].
  destruct (Hinv p Hp) as (_ & _ & _ & _ & _ & Hsize). exact Hsize.
Defined.

(** ** BiphasicPulse *)

Lemma Qcdiv_0_l (x : Qc) : (0 / x)%Qc = 0%Qc.
Proof. unfold Qcdiv. ring. Qed.

Lemma np_sum_app (a b : samples) :
  np_sum (a ++ b) = (np_sum a + np_sum b)%Qc.
Proof.
  unfold np_sum. induction a as [|x a IH]; simpl.
  - ring.
  - rewrite IH. ring.
Qed.

Lemma np_sum_zeros (n : nat) : np_sum (repeat 0%Qc n) = 0%Qc.
Proof.
  unfold np_sum. induction n as [|n IH]; simpl; [reflexivity|].
  rewrite IH. ring.
Qed.

Lemma np_sum_repeat_opp (x : Qc) (n : nat) :
  np_sum (repeat (- x)%Qc n) = (- np_sum (repeat x n))%Qc.
Proof.
  unfold np_sum. induction n as [|n IH]; simpl; [ring|].
  rewrite IH. ring.
Qed.

Lemma np_sum_balanced (x : Qc) (n g : nat) :
  np_sum (repeat x n ++ repeat 0%Qc g ++ repeat (- x)%Qc n) = 0%Qc.
Proof.
  rewrite !np_sum_app, np_sum_zeros, np_sum_repeat_opp. ring.
Qed.

Lemma firstn_exact {A : Type} (n : nat) (a b : list A) :
  length a = n -> firstn n (a ++ b) = a.
Proof.
  intros <-. rewrite firstn_app, firstn_all, Nat.sub_diag. simpl.
  apply app_nil_r.
Qed.

(** A phase as [BiphasicPulse] asks for it: no delay, and the stimulus
    as long as the phase. *)
Lemma MonophasicPulse_phase (ptype : string) (pdur ts : Qc) (p : TimeSeries) :
  ptype = "anodic" \/ ptype = "cathodic" ->
  (0 < ts)%Qc ->
  MonophasicPulse ptype pdur ts 0%Qc (Some pdur) = Ok p ->
  0 <= np_round (pdur / ts)%Qc /\
  data p = repeat (polarity ptype) (Z.to_nat (np_round (pdur / ts)%Qc)).
Proof.
  intros Hp Hts H.
  destruct (MonophasicPulse_inv _ _ _ _ _ Hp Hts p H)
    as (Hn & _ & _ & _ & Hdata & _).
  split; [exact Hn|]. rewrite Hdata. unfold monophasic_buffer.
  rewrite Qcdiv_0_l. change (np_round 0%Qc) with 0. simpl.
  apply firstn_exact, repeat_length.
Qed.

Section Biphasic.

Variables (ptype : string) (pdur ts interphase_dur : Qc).
Hypothesis recognised : ptype = "cathodicfirst" \/ ptype = "anodicfirst".
Hypothesis ts_pos : (0 < ts)%Qc.

Let phase_samples : Z := np_round (pdur / ts)%Qc.
Let gap_samples : Z := py_round (interphase_dur / ts)%Qc.

Lemma BiphasicPulse_inv (bp : TimeSeries) :
  BiphasicPulse ptype pdur ts interphase_dur = Ok bp ->
  0 <= phase_samples /\ 0 <= gap_samples /\
  tsample bp = ts /\
  data bp = biphasic_samples ptype phase_samples gap_samples.
Proof.
  pose proof ts_pos as Hts. apply Qcleb_false in Hts.
  unfold BiphasicPulse. rewrite Hts. intro H.
  apply bind_Ok_inv in H. destruct H as (on & Hon & H).
  apply bind_Ok_inv in H. destruct H as (off & Hoff & H).
  apply bind_Ok_inv in H. destruct H as (gap & Hgap & H).
  apply MonophasicPulse_phase in Hon; [|now left|exact ts_pos].
  apply MonophasicPulse_phase in Hoff; [|now right|exact ts_pos].
  destruct Hon as [Hn Hon]. destruct Hoff as [_ Hoff].
  apply np_zeros_inv in Hgap. destruct Hgap as [Hg ->].
  fold phase_samples in Hn, Hon, Hoff. fold gap_samples in Hg |- *.
  unfold biphasic_samples, first_phase.
  destruct recognised as [-> | ->]; simpl in H |- *;
    injection H as <-; simpl; rewrite Hon, Hoff, <- app_assoc;
    repeat split; assumption.
Qed.

Lemma BiphasicPulse_returns :
  0 <= phase_samples -> 0 <= gap_samples ->
  exists bp, BiphasicPulse ptype pdur ts interphase_dur = Ok bp.
Proof.
  intros Hn Hg.
  pose proof ts_pos as Hts. apply Qcleb_false in Hts.
  unfold BiphasicPulse. rewrite Hts.
  assert (Hphase : forall q, q = "anodic" \/ q = "cathodic" ->
            exists p, MonophasicPulse q pdur ts 0%Qc (Some pdur) = Ok p).
  { intros q Hq. apply MonophasicPulse_returns; try assumption.
    rewrite Qcdiv_0_l. change (np_round 0%Qc) with 0. lia. }
  destruct (Hphase "anodic") as [on ->]; [now left|].
  destruct (Hphase "cathodic") as [off ->]; [now right|].
  fold gap_samples. rewrite (np_zeros_ok _ Hg). simpl.
  destruct recognised as [-> | ->]; simpl; eauto.
Qed.

End Biphasic.

Lemma biphasic_samples_sum (ptype : string) (n g : Z) :
  np_sum (biphasic_samples ptype n g) = 0%Qc.
Proof. unfold biphasic_samples. apply np_sum_balanced. Qed.

Lemma biphasic_samples_size (ptype : string) (n g : Z) :
  0 <= n -> 0 <= g -> size (biphasic_samples ptype n g) = 2 * n + g.
Proof.
  intros Hn Hg. unfold biphasic_samples.
  rewrite !size_app, !size_repeat by assumption. lia.
Qed.

(** C3.  For a recognised [ptype] and [tsample > 0], the samples of a
    biphasic pulse are a first phase of [round(pdur / tsample)] samples
    of one sign (all -1 for 'cathodicfirst', all +1 for 'anodicfirst'),
    the gap of [round(interphase_dur / tsample)] zeros, and a second
    phase of as many samples of the opposite sign; so they add up to
    exactly 0 and there are [2 * round(pdur / tsample) +
    round(interphase_dur / tsample)] of them.  The call returns
    whenever the two counts are not negative. *)
Theorem BiphasicPulse_charge_balanced
    (ptype : string) (pdur ts interphase_dur : Qc) :
  ptype = "cathodicfirst" \/ ptype = "anodicfirst" ->
  (0 < ts)%Qc ->
  let phase_samples := np_round (pdur / ts)%Qc in
  let gap_samples := py_round (interphase_dur / ts)%Qc in
  (forall bp, BiphasicPulse ptype pdur ts interphase_dur = Ok bp ->
     0 <= phase_samples /\ 0 <= gap_samples /\
     data bp =
       repeat (first_phase ptype) (Z.to_nat phase_samples)
       ++ repeat 0%Qc (Z.to_nat gap_samples)
       ++ repeat (- first_phase ptype)%Qc (Z.to_nat phase_samples) /\
     (first_phase ptype = 1%Qc \/ first_phase ptype = (- (1))%Qc) /\
     np_sum (data bp) = 0%Qc /\
     size (data bp) = 2 * phase_samples + gap_samples) /\
  (0 <= phase_samples -> 0 <= gap_samples ->
   exists bp, BiphasicPulse ptype pdur ts interphase_dur = Ok bp).
Proof.
  intros Hp Hts phase_samples gap_samples. split.
  - intros bp H.
    destruct (BiphasicPulse_inv _ _ _ _ Hp Hts bp H) as (Hn & Hg & _ & Hdata).
    fold phase_samples in Hn, Hdata. fold gap_samples in Hg, Hdata.
    repeat split; try assumption.
    + unfold first_phase. destruct Hp as [-> | ->]; simpl; auto.
    + rewrite Hdata. apply biphasic_samples_sum.
    + rewrite Hdata. apply biphasic_samples_size; assumption.
  - exact (BiphasicPulse_returns _ _ _ _ Hp Hts).
Qed.

(** A cathodic-first pulse of 2 ms per phase with a gap of 1 ms, sampled
    every millisecond. *)
Lemma BiphasicPulse_charge_balanced_witness :
  exists bp,
    BiphasicPulse "cathodicfirst" (dec 2 1000) (dec 1 1000) (dec 1 1000)
      = Ok bp /\
    np_sum (data bp) = 0%Qc /\ size (data bp) = 5.
Proof.
  destruct (BiphasicPulse_charge_balanced "cathodicfirst" (dec 2 1000)
              (dec 1 1000) (dec 1 1000) (or_introl eq_refl) eq_refl)
    as [Hinv Hret].
  destruct Hret as [bp Hbp]; [vm_compute; discriminate ..|].
  exists bp. split; [exact Hbp|].
  destruct (Hinv bp Hbp) as (_ & _ & _ & _ & Hsum & Hsize).
  split; [exact Hsum | exact Hsize].
Defined.

(** ** PulseTrain *)

Lemma Qcmult_1_div (x y : Qc) : (1 * x / y)%Qc = (x / y)%Qc.
Proof. unfold Qcdiv. ring. Qed.

(** The zero-fill and the cut at the end bring any array to
    [stim_size] samples. *)
Lemma fill_and_cut (stim_size : Z) (pulse_train filled : samples) :
  0 <= stim_size ->
  (if size pulse_train <? stim_size then
     let fill_size := stim_size - size pulse_train in
     do z <- np_zeros fill_size; Ok (pulse_train ++ z)
   else Ok pulse_train) = Ok filled ->
  size (slice_to stim_size filled) = stim_size.
Proof.
  intros Hs H. rewrite slice_to_nonneg by exact Hs.
  unfold size in *. rewrite length_firstn.
  destruct (Z.of_nat (length pulse_train) <? stim_size) eqn:E.
  - apply Z.ltb_lt in E. cbv zeta in H.
    apply bind_Ok_inv in H. destruct H as (z & Hz & H).
    apply np_zeros_inv in Hz. destruct Hz as [_ ->].
    injection H as <-. rewrite length_app, repeat_length. lia.
  - apply Z.ltb_ge in E. injection H as <-. lia.
Qed.

(** What a call that gets past the checks has computed. *)
Lemma PulseTrain_length_nonneg
    (ts freq amp dur delay pulse_dur interphase_dur : Qc)
    (pulsetype pulseorder : string) (pt : TimeSeries) :
  (0 < ts)%Qc ->
  0 <= np_round (dur / ts)%Qc ->
  PulseTrain ts freq amp dur delay pulse_dur interphase_dur
    pulsetype pulseorder = Ok pt ->
  tsample pt = ts /\ size (data pt) = np_round (dur / ts)%Qc.
Proof.
  intros Hts Hs. apply Qcleb_false in Hts.
  unfold PulseTrain. rewrite Hts, Qcmult_1_div.
  destruct (np_isclose freq 0%Qc || np_isclose amp 0%Qc).
  - intro H. apply bind_Ok_inv in H. destruct H as (z & Hz & H).
    apply np_zeros_inv in Hz. destruct Hz as [_ ->].
    injection H as <-. simpl. split; [reflexivity|].
    apply size_repeat, Hs.
  - destruct (np_round (1 * delay / ts)%Qc <? 0); [discriminate|].
    intro H.
    apply bind_Ok_inv in H. destruct H as (dl & _ & H).
    apply bind_Ok_inv in H. destruct H as (bp & _ & H).
    destruct (size (np_scale amp (data bp)) <? 0); [discriminate|].
    match type of H with
    | (if ?c then _ else _) = _ => destruct c; [discriminate|]
    end.
    apply bind_Ok_inv in H. destruct H as (gap & _ & H).
    apply bind_Ok_inv in H. destruct H as (train & _ & H).
    apply bind_Ok_inv in H. destruct H as (filled & Hfill & H).
    injection H as <-. simpl. split; [reflexivity|].
    exact (fill_and_cut _ _ _ Hs Hfill).
Qed.

(** C1, as amended.  For every call with [tsample > 0] and a count
    [round(dur / tsample)] that is not negative, if the call returns,
    the sequence has exactly [round(dur / tsample)] samples, whatever
    the other arguments: in the degenerate case, and whether the
    envelopes put together make more or fewer samples than that. *)
Theorem PulseTrain_length
    (ts freq amp dur delay pulse_dur interphase_dur : Qc)
    (pulsetype pulseorder : string) (pt : TimeSeries) :
  (0 < ts)%Qc ->
  0 <= np_round (dur / ts)%Qc ->
  PulseTrain ts freq amp dur delay pulse_dur interphase_dur
    pulsetype pulseorder = Ok pt ->
  size (data pt) = np_round (dur / ts)%Qc.
Proof.
  intros Hts Hs H.
  exact (proj2 (PulseTrain_length_nonneg _ _ _ _ _ _ _ _ _ _ Hts Hs H)).
Qed.

(** Three envelopes of 333 samples at 30 Hz fall one sample short of
    the 1000 samples of 0.1 s; the zero-fill makes up for it. *)
Lemma PulseTrain_length_witness :
  exists pt,
    PulseTrain (dec 1 10000) (dec 30 1) default_amp (dec 1 10) default_delay
      default_pulse_dur default_interphase_dur default_pulsetype
      default_pulseorder = Ok pt /\
    size (data pt) = 1000.
Proof.
  destruct (PulseTrain (dec 1 10000) (dec 30 1) default_amp (dec 1 10)
              default_delay default_pulse_dur default_interphase_dur
              default_pulsetype default_pulseorder) as [pt|e] eqn:E;
    [|vm_compute in E; discriminate].
  exists pt. split; [reflexivity|].
  refine (PulseTrain_length (dec 1 10000) (dec 30 1) default_amp (dec 1 10)
            default_delay default_pulse_dur default_interphase_dur
            default_pulsetype default_pulseorder pt eq_refl _ E).
  vm_compute. discriminate.
Defined.

(** C1 as stated fails for a negative [dur]: the call returns, the
    sequence is empty, and [round(dur / tsample)] is -1000. *)
Lemma PulseTrain_length_counterexample :
  (0 < dec 1 10000)%Qc /\
  PulseTrain (dec 1 10000) default_freq default_amp (dec (-1) 10)
    default_delay default_pulse_dur default_interphase_dur
    default_pulsetype default_pulseorder
    = Ok (mkTimeSeries (dec 1 10000) []) /\
  size [] = 0 /\
  np_round (dec (-1) 10 / dec 1 10000)%Qc = -1000.
Proof.
  split; [reflexivity|]. split; [vm_compute; reflexivity|].
  split; reflexivity.
Qed.

(** C6, as amended.  With [tsample > 0] and a count [round(dur /
    tsample)] that is not negative, a [freq] or an [amp] close to 0
    gives [round(dur / tsample)] zeros, whatever the other arguments
    are: the delay, the durations of the pulse and the two tokens are
    not looked at, so a negative delay raises nothing. *)
Theorem PulseTrain_degenerate
    (ts freq amp dur delay pulse_dur interphase_dur : Qc)
    (pulsetype pulseorder : string) :
  (0 < ts)%Qc ->
  0 <= np_round (dur / ts)%Qc ->
  np_isclose freq 0%Qc = true \/ np_isclose amp 0%Qc = true ->
  PulseTrain ts freq amp dur delay pulse_dur interphase_dur
    pulsetype pulseorder
  = Ok (mkTimeSeries ts (repeat 0%Qc (Z.to_nat (np_round (dur / ts)%Qc)))).
Proof.
  intros Hts Hs Hclose. apply Qcleb_false in Hts.
  unfold PulseTrain. rewrite Hts, Qcmult_1_div.
  replace (np_isclose freq 0%Qc || np_isclose amp 0%Qc) with true.
  - rewrite (np_zeros_ok _ Hs). reflexivity.
  - symmetry. apply orb_true_iff. exact Hclose.
Qed.

(** A frequency of 1e-9 Hz with a delay of -1 s, negative pulse
    durations and unknown tokens: ten zeros for 1 ms at 0.1 ms. *)
Lemma PulseTrain_degenerate_witness :
  PulseTrain (dec 1 10000) (dec 1 1000000000) default_amp (dec 1 1000)
    (dec (-1) 1) (dec (-45) 100000) (dec (-45) 100000) "up" "down"
  = Ok (mkTimeSeries (dec 1 10000) (repeat 0%Qc 10)).
Proof.
  refine (PulseTrain_degenerate (dec 1 10000) (dec 1 1000000000) default_amp
            (dec 1 1000) (dec (-1) 1) (dec (-45) 100000) (dec (-45) 100000)
            "up" "down" eq_refl _ (or_introl eq_refl)).
  vm_compute. discriminate.
Defined.

(** C6 as stated fails where the sampling step is not positive and
    where [dur] is negative: both calls raise although [freq] is 0. *)
Lemma PulseTrain_degenerate_counterexample :
  np_isclose 0%Qc 0%Qc = true /\
  PulseTrain 0%Qc 0%Qc default_amp default_dur default_delay
    default_pulse_dur default_interphase_dur default_pulsetype
    default_pulseorder = Raise tsample_error /\
  PulseTrain (dec 1 10000) 0%Qc default_amp (dec (-1) 10) default_delay
    default_pulse_dur default_interphase_dur default_pulsetype
    default_pulseorder = Raise negative_dimensions.
Proof. repeat split; vm_compute; reflexivity. Qed.

(** C2.  When neither [freq] nor [amp] is close to 0 and the call gets
    to [gap_size = envelope_size - (delay_size + pulse_size)] (the step
    is positive, the delay is not negative, the biphasic pulse is
    built) and finds it negative, it raises the [ValueError] for a
    pulse and delay that do not fit, and returns no waveform.  So does
    the call with [tsample = 1e-3], [freq = 500], [pulse_dur = 2e-3],
    no gap between the phases and no delay: four samples of pulse in a
    period of two. *)
Theorem PulseTrain_rejects_no_fit :
  (forall (ts freq amp dur delay pulse_dur interphase_dur : Qc)
          (pulsetype pulseorder : string) (bp : TimeSeries),
     (0 < ts)%Qc ->
     np_isclose freq 0%Qc = false ->
     np_isclose amp 0%Qc = false ->
     0 <= np_round (delay / ts)%Qc ->
     BiphasicPulse pulsetype pulse_dur ts interphase_dur = Ok bp ->
     np_round (1 / freq / ts)%Qc
       - (np_round (delay / ts)%Qc + size (np_scale amp (data bp))) < 0 ->
     PulseTrain ts freq amp dur delay pulse_dur interphase_dur
       pulsetype pulseorder = Raise fit_error) /\
  (forall (amp dur : Qc) (pulsetype pulseorder : string),
     np_isclose amp 0%Qc = false ->
     pulsetype = "cathodicfirst" \/ pulsetype = "anodicfirst" ->
     PulseTrain (dec 1 1000) (dec 500 1) amp dur 0%Qc (dec 2 1000) 0%Qc
       pulsetype pulseorder = Raise fit_error).
Proof.
  assert (General : forall ts freq amp dur delay pulse_dur interphase_dur
                      pulsetype pulseorder bp,
     (0 < ts)%Qc ->
     np_isclose freq 0%Qc = false ->
     np_isclose amp 0%Qc = false ->
     0 <= np_round (delay / ts)%Qc ->
     BiphasicPulse pulsetype pulse_dur ts interphase_dur = Ok bp ->
     np_round (1 / freq / ts)%Qc
       - (np_round (delay / ts)%Qc + size (np_scale amp (data bp))) < 0 ->
     PulseTrain ts freq amp dur delay pulse_dur interphase_dur
       pulsetype pulseorder = Raise fit_error).
  { intros ts freq amp dur delay pulse_dur interphase_dur pulsetype
      pulseorder bp Hts Hf Ha Hd Hbp Hgap.
    apply Qcleb_false in Hts.
    unfold PulseTrain. rewrite Hts, Hf, Ha, !Qcmult_1_div. simpl.
    apply Z.ltb_ge in Hd. rewrite Hd.
    apply Z.ltb_ge in Hd. rewrite (np_zeros_ok _ Hd), Hbp. simpl.
    pose proof (size_nonneg (np_scale amp (data bp))) as Hp.
    apply Z.ltb_ge in Hp. rewrite Hp.
    apply Z.ltb_lt in Hgap. rewrite Hgap. reflexivity. }
  split; [exact General|].
  intros amp dur pulsetype pulseorder Ha Hp.
  assert (Hbp : exists bp,
            BiphasicPulse pulsetype (dec 2 1000) (dec 1 1000) 0%Qc = Ok bp /\
            length (data bp) = 4%nat).
  { destruct Hp as [-> | ->]; eexists; (split; [vm_compute; reflexivity|]);
      reflexivity. }
  destruct Hbp as (bp & Hbp & Hlen).
  apply General with (bp := bp); try assumption; try reflexivity.
  unfold size, np_scale. rewrite length_map, Hlen. reflexivity.
Qed.

(** The same misfit at 0.1 ms: a period of 20 samples (500 Hz) and a
    pulse of 25 + 25 samples. *)
Lemma PulseTrain_rejects_no_fit_witness :
  PulseTrain (dec 1 10000) (dec 500 1) default_amp default_dur default_delay
    (dec 25 10000) 0%Qc default_pulsetype default_pulseorder
  = Raise fit_error.
Proof.
  refine (proj1 PulseTrain_rejects_no_fit (dec 1 10000) (dec 500 1)
            default_amp default_dur default_delay (dec 25 10000) 0%Qc
            default_pulsetype default_pulseorder
            (mkTimeSeries (dec 1 10000)
               (biphasic_samples "cathodicfirst" 25 0))
            eq_refl eq_refl eq_refl _ _ eq_refl).
  - vm_compute. discriminate.
  - vm_compute. reflexivity.
Defined.

(** C8.  [PulseTrain(tsample=1e-4, freq=20, amp=20, dur=0.1,
    pulse_dur=4.5e-4, interphase_dur=4.5e-4)] returns 1000 samples made
    of [floor(0.1 * 20) = 2] envelopes of 500, each a biphasic pulse of
    amplitude 20 (4.5 samples per phase and for the gap come to 4, the
    tie going to the even count) followed by zeros only. *)
Theorem PulseTrain_two_envelopes :
  let pulse :=
    repeat (dec (-20) 1) 4 ++ repeat 0%Qc 4 ++ repeat (dec 20 1) 4 in
  let envelope := pulse ++ repeat 0%Qc 488 in
  PulseTrain (dec 1 10000) (dec 20 1) (dec 20 1) (dec 1 10) default_delay
    (dec 45 100000) (dec 45 100000) default_pulsetype default_pulseorder
  = Ok (mkTimeSeries (dec 1 10000) (envelope ++ envelope)) /\
  size (envelope ++ envelope) = 1000 /\
  Qfloor (dec 1 10 * dec 20 1)%Qc = 2 /\
  (exists bp,
     BiphasicPulse default_pulsetype (dec 45 100000) (dec 1 10000)
       (dec 45 100000) = Ok bp /\
     pulse = np_scale (dec 20 1) (data bp)).
Proof.
  cbv zeta. split; [vm_compute; reflexivity|].
  split; [reflexivity|]. split; [reflexivity|].
  eexists. split; vm_compute; reflexivity.
Qed.

(** C10.  The cut to [stim_size] can fall inside a pulse.  At 70 Hz and
    a step of 0.1 ms an envelope has [round(142.86) = 143] samples, so
    the [ceil(0.1 * 70) = 7] envelopes of a stimulus of 0.1 s make 1001
    samples, one more than the 1000 asked for; with 'gapfirst' the
    sample cut off is the last one of the last pulse, of value +20, and
    the returned samples add up to -20 although the pulse itself adds
    up to 0. *)
Theorem PulseTrain_cut_inside_pulse :
  let ts := dec 1 10000 in
  let freq := dec 70 1 in
  let amp := dec 20 1 in
  let dur := dec 1 10 in
  let pulse_dur := dec 5 10000 in
  let interphase_dur := dec 5 10000 in
  exists pt bp train,
    PulseTrain ts freq amp dur default_delay pulse_dur interphase_dur
      "cathodicfirst" "gapfirst" = Ok pt /\
    BiphasicPulse "cathodicfirst" pulse_dur ts interphase_dur = Ok bp /\
    np_sum (np_scale amp (data bp)) = 0%Qc /\
    np_round (1 / freq / ts)%Qc = 143 /\
    np_ceil (dur * freq)%Qc = 7 /\
    np_round (dur / ts)%Qc = 1000 /\
    envelopes 7 "gapfirst" [] (np_scale amp (data bp))
      (repeat 0%Qc (143 - 15)) [] = Ok train /\
    size train = 1001 /\
    nth 1000 train 0%Qc = amp /\
    data pt = firstn 1000 train /\
    np_sum (data pt) = dec (-20) 1 /\
    np_sum (data pt) <> 0%Qc.
Proof.
  cbv zeta. do 3 eexists.
  split; [vm_compute; reflexivity|].
  split; [vm_compute; reflexivity|].
  split; [vm_compute; reflexivity|].
  split; [reflexivity|]. split; [reflexivity|]. split; [reflexivity|].
  split; [vm_compute; reflexivity|].
  split; [reflexivity|].
  split; [vm_compute; reflexivity|].
  split; [vm_compute; reflexivity|].
  split; [vm_compute; reflexivity|].
  vm_compute. discriminate.
Qed.

(** ** parse_pulse_trains *)

Lemma list_set_length {A : Type} (xs : list A) (i : nat) (v : A) :
  length (list_set xs i v) = length xs.
Proof.
  revert i. induction xs as [|x xs IH]; intros [|i]; simpl; auto.
Qed.

Lemma list_set_nth_same {A : Type} (xs : list A) (i : nat) (v d : A) :
  (i < length xs)%nat -> nth i (list_set xs i v) d = v.
Proof.
  revert i. induction xs as [|x xs IH]; intros [|i] H; simpl in *;
    try lia; auto. apply IH. lia.
Qed.

Lemma list_set_nth_other {A : Type} (xs : list A) (i j : nat) (v d : A) :
  i <> j -> nth i (list_set xs j v) d = nth i xs d.
Proof.
  revert i j. induction xs as [|x xs IH]; intros [|i] [|j] H; simpl;
    try reflexivity; try congruence.
  apply IH. congruence.
Qed.

Lemma nth_repeat_lt {A : Type} (x d : A) (n i : nat) :
  (i < n)%nat -> nth i (repeat x n) d = x.
Proof.
  revert i. induction n as [|n IH]; intros [|i] H; simpl; try lia; auto.
  apply IH. lia.
Qed.

Lemma deref_app (h ext : heap) (l : loc) :
  (l < length h)%nat -> deref (h ++ ext) l = deref h l.
Proof. intro H. unfold deref. apply app_nth1, H. Qed.

Lemma deref_alloc (h : heap) (v : TimeSeries) :
  deref (snd (alloc h v)) (fst (alloc h v)) = v.
Proof.
  unfold alloc, deref. simpl. rewrite app_nth2 by lia.
  rewrite Nat.sub_diag. reflexivity.
Qed.

(** The loop over the items leaves alone the slots of the electrodes
    that no key names, and the objects that were there before it. *)
Lemma assign_items_frame (implant : ElectrodeArray) (i : nat)
    (items : list (string * loc)) :
  forall (pt : list loc) (h : heap) (pt' : list loc) (h' : heap),
    assign_items items implant pt h = Ok (pt', h') ->
    (forall key value, In (key, value) items ->
       get_index implant key <> Some i) ->
    nth i pt' 0%nat = nth i pt 0%nat /\
    length pt' = length pt /\
    exists ext, h' = h ++ ext.
Proof.
  induction items as [|[key value] items IH]; intros pt h pt' h' H Hun.
  - injection H as <- <-. repeat split. exists []. symmetry. apply app_nil_r.
  - simpl in H. destruct (get_index implant key) as [el_idx|] eqn:E;
      [|discriminate].
    unfold deepcopy, alloc in H.
    apply IH in H; [|intros k v Hin; apply (Hun k v); now right].
    destruct H as (Hnth & Hlen & ext & ->).
    rewrite Hnth, Hlen, list_set_length. split; [|split; [reflexivity|]].
    + apply list_set_nth_other. intros <-.
      apply (Hun key value); [now left | exact E].
    + rewrite <- app_assoc. eauto.
Qed.

(** The index that the lookup returns is the place of an electrode of
    that name. *)
Lemma get_index_from_name (implant : ElectrodeArray) (key : string) :
  forall (k i : nat),
    get_index_from k implant key = Some i ->
    (k <= i)%nat /\
    exists e, nth_error implant (i - k) = Some e /\ name e = key.
Proof.
  induction implant as [|e implant IH]; intros k i H; simpl in H;
    [discriminate|].
  destruct (String.eqb (name e) key) eqn:E.
  - injection H as <-. split; [lia|]. rewrite Nat.sub_diag.
    exists e. split; [reflexivity|]. apply String.eqb_eq, E.
  - apply IH in H. destruct H as (Hk & e' & Hnth & Hname).
    split; [lia|]. exists e'. split; [|exact Hname].
    replace (i - k)%nat with (S (i - S k)) by lia. exact Hnth.
Qed.

Lemma unnamed_not_assigned (implant : ElectrodeArray)
    (items : list (string * loc)) (i : nat) (e : Electrode) :
  nth_error implant i = Some e ->
  ~ In (name e) (map fst items) ->
  forall key value, In (key, value) items -> get_index implant key <> Some i.
Proof.
  intros Hnth Hname key value Hin Hget.
  apply get_index_from_name in Hget. destruct Hget as (_ & e' & Hnth' & <-).
  rewrite Nat.sub_0_r, Hnth in Hnth'. injection Hnth' as <-.
  apply Hname, in_map_iff. exists (name e, value). auto.
Qed.

(** C4, what the code does.  In the dict case every electrode whose
    name is not a key gets an all-zero waveform with the sampling step
    and the number of samples of the first entry, and the waveforms of
    the caller stay as they were; but the zero waveform is one object
    for all of these electrodes: the slots of two of them hold the same
    reference, and a sample written through one is read through the
    other. *)
Theorem parse_pulse_trains_zero_fill_shared
    (items : list (string * loc)) (implant : ElectrodeArray) (h : heap)
    (pt : list loc) (h' : heap) (i j : nat) (ei ej : Electrode) :
  parse_pulse_trains (StimDict items) implant h = Ok (pt, h') ->
  nth_error implant i = Some ei ->
  nth_error implant j = Some ej ->
  ~ In (name ei) (map fst items) ->
  ~ In (name ej) (map fst items) ->
  let first := deref h (snd (hd ("", 0%nat) items)) in
  let zero :=
    mkTimeSeries (tsample first) (repeat 0%Qc (length (data first))) in
  (exists new, h' = h ++ new) /\
  deref h' (nth i pt 0%nat) = zero /\
  deref h' (nth j pt 0%nat) = zero /\
  nth i pt 0%nat = nth j pt 0%nat /\
  forall (k : nat) (v : Qc),
    deref (set_sample h' (nth i pt 0%nat) k v) (nth j pt 0%nat)
    = mkTimeSeries (tsample first) (list_set (data zero) k v).
Proof.
  intros H Hi Hj Hni Hnj first zero.
  unfold parse_pulse_trains in H.
  destruct items as [|[key0 first_loc] items]; [discriminate|].
  unfold alloc in H. simpl in first.
  fold first in H. unfold np_zeros_like in H. fold zero in H.
  unfold num_electrodes in H. rewrite Nat2Z.id in H.
  pose proof (assign_items_frame implant i _ _ _ _ _ H
                (unnamed_not_assigned _ _ _ _ Hi Hni))
    as (Hpi & _ & ext & ->).
  pose proof (assign_items_frame implant j _ _ _ _ _ H
                (unnamed_not_assigned _ _ _ _ Hj Hnj)) as (Hpj & _ & _).
  assert (Hil : (i < length implant)%nat)
    by (apply nth_error_Some; congruence).
  assert (Hjl : (j < length implant)%nat)
    by (apply nth_error_Some; congruence).
  rewrite nth_repeat_lt in Hpi by exact Hil.
  rewrite nth_repeat_lt in Hpj by exact Hjl.
  rewrite Hpi, Hpj.
  assert (Hz : deref ((h ++ [zero]) ++ ext) (length h) = zero).
  { rewrite deref_app by (rewrite length_app; simpl; lia).
    exact (deref_alloc h zero). }
  split; [exists ([zero] ++ ext); apply eq_sym, app_assoc|].
  repeat split; try exact Hz.
  intros k v. unfold set_sample. rewrite Hz. unfold deref.
  apply list_set_nth_same. rewrite !length_app. simpl. lia.
Qed.

(** The failing input of C4: the dict [{'A': pt}] for an array of the
    electrodes A, B and C.  The slots of B and C hold the same
    reference, and writing 5 to sample 0 through B's slot changes what
    C's slot reads. *)
Lemma parse_pulse_trains_zero_fill_shared_witness :
  let pt0 := mkTimeSeries (dec 1 1000) [dec 1 1; dec 2 1] in
  let B := mkElectrode "B" 1%Qc 0%Qc 1%Qc in
  let C := mkElectrode "C" (dec 2 1) 0%Qc 1%Qc in
  let implant := [mkElectrode "A" 0%Qc 0%Qc 1%Qc; B; C] in
  exists pt h',
    parse_pulse_trains (StimDict [("A", 0%nat)]) implant [pt0] = Ok (pt, h') /\
    pt = [2%nat; 1%nat; 1%nat] /\
    nth 1 pt 0%nat = nth 2 pt 0%nat /\
    data (deref h' (nth 2 pt 0%nat)) = [0%Qc; 0%Qc] /\
    data (deref (set_sample h' (nth 1 pt 0%nat) 0 (dec 5 1)) (nth 2 pt 0%nat))
      = [dec 5 1; 0%Qc].
Proof.
  cbv zeta.
  set (pt0 := mkTimeSeries (dec 1 1000) [dec 1 1; dec 2 1]).
  set (B := mkElectrode "B" 1%Qc 0%Qc 1%Qc).
  set (C := mkElectrode "C" (dec 2 1) 0%Qc 1%Qc).
  set (implant := [mkElectrode "A" 0%Qc 0%Qc 1%Qc; B; C]).
  destruct (parse_pulse_trains (StimDict [("A", 0%nat)]) implant [pt0])
    as [[pt h']|e] eqn:E; [|vm_compute in E; discriminate].
  exists pt, h'. split; [reflexivity|].
  assert (HB : ~ In (name B) (map fst [("A", 0%nat)]))
    by (simpl; intros [H|[]]; discriminate).
  assert (HC : ~ In (name C) (map fst [("A", 0%nat)]))
    by (simpl; intros [H|[]]; discriminate).
  destruct (parse_pulse_trains_zero_fill_shared [("A", 0%nat)] implant [pt0]
              pt h' 1 2 B C E eq_refl eq_refl HB HC)
    as (_ & _ & Hzero & Hsame & Hwrite).
  split; [vm_compute in E; injection E as <- _; reflexivity|].
  split; [exact Hsame|].
  split; [rewrite Hzero; reflexivity|].
  rewrite Hwrite. reflexivity.
Defined.

(** C5, what the code does.  One waveform is refused for more than one
    electrode and copied for exactly one, and it is copied as well for
    an array with no electrode: the call returns a list of one waveform
    although there is no electrode to take it. *)
Theorem parse_pulse_trains_single_series (s : loc) (implant : ElectrodeArray)
    (h : heap) :
  (1 < num_electrodes implant ->
   parse_pulse_trains (StimSeries s) implant h = Raise too_many_electrodes) /\
  (num_electrodes implant = 1 ->
   parse_pulse_trains (StimSeries s) implant h
   = Ok ([length h], h ++ [deref h s])) /\
  (num_electrodes implant = 0 ->
   parse_pulse_trains (StimSeries s) implant h
   = Ok ([length h], h ++ [deref h s])).
Proof.
  unfold parse_pulse_trains, deepcopy, alloc.
  repeat split; intro H.
  - apply Z.gtb_lt in H. rewrite H. reflexivity.
  - rewrite H. reflexivity.
  - rewrite H. reflexivity.
Qed.

(** The failing input of C5: one waveform for the empty array. *)
Lemma parse_pulse_trains_single_series_witness :
  let pt0 := mkTimeSeries (dec 1 1000) [dec 1 1; dec 2 1] in
  num_electrodes [] = 0 /\
  parse_pulse_trains (StimSeries 0%nat) [] [pt0] = Ok ([1%nat], [pt0; pt0]).
Proof.
  cbv zeta. split; [reflexivity|].
  exact (proj2 (proj2 (parse_pulse_trains_single_series 0%nat []
                         [mkTimeSeries (dec 1 1000) [dec 1 1; dec 2 1]]))
           eq_refl).
Defined.

(** ** image2pulsetrain *)

Lemma forallb_repeat {A : Type} (f : A -> bool) (v : A) (n : nat) :
  f v = true -> forallb f (repeat v n) = true.
Proof.
  intro H. induction n as [|n IH]; simpl; [reflexivity|].
  rewrite H, IH. reflexivity.
Qed.

Lemma collect_repeat_Ok {A : Type} (a : A) (n : nat) :
  collect (repeat (Ok a) n) = Ok (repeat a n).
Proof.
  induction n as [|n IH]; simpl; [reflexivity|]. rewrite IH. reflexivity.
Qed.

Lemma collect_repeat_Raise {A : Type} (e : exn) (n : nat) :
  (0 < n)%nat -> collect (repeat (@Raise A e) n) = Raise e.
Proof. destruct n as [|n]; [lia|]. reflexivity. Qed.

Lemma map_const_repeat {A B : Type} (f : A -> B) (b : B) (l : list A) :
  (forall a, In a l -> f a = b) -> map f l = repeat b (length l).
Proof.
  induction l as [|a l IH]; intro H; simpl; [reflexivity|].
  rewrite (H a) by now left. f_equal. apply IH.
  intros a' Ha'. apply H. now right.
Qed.

Lemma collect_repeat {A : Type} (m : result A) (n : nat) :
  (0 < n)%nat ->
  (forall a, m = Ok a -> collect (repeat m n) = Ok (repeat a n)) /\
  (forall e, m = Raise e -> collect (repeat m n) = Raise e).
Proof.
  intro Hn. split.
  - intros a ->. apply collect_repeat_Ok.
  - intros e ->. apply collect_repeat_Raise, Hn.
Qed.

Lemma np_sum_cons (x : Qc) (a : samples) :
  np_sum (x :: a) = (x + np_sum a)%Qc.
Proof. reflexivity. Qed.

Lemma np_linspace_length (lo hi : Qc) (num : nat) :
  length (np_linspace lo hi num) = num.
Proof.
  destruct num as [|[|k]]; simpl; try reflexivity.
  rewrite length_map, length_seq. reflexivity.
Qed.

Lemma np_meshgrid_shape (a b : samples) :
  (0 < length b)%nat ->
  n_rows (snd (np_meshgrid a b)) = length b /\
  n_cols (snd (np_meshgrid a b)) = length a.
Proof.
  intro Hb. unfold np_meshgrid, n_rows, n_cols. simpl.
  split; [apply length_map|].
  destruct b as [|y b]; [simpl in Hb; lia|]. simpl. apply length_map.
Qed.

(** *** In double precision: an image of one value *)

Lemma concat_full (v : float) (r c : nat) :
  concat (Double.full v r c) = repeat v (r * c).
Proof.
  unfold Double.full. induction r as [|r IH]; simpl; [reflexivity|].
  rewrite IH. symmetry. apply repeat_app.
Qed.

Lemma map_map_full (f : float -> float) (v : float) (r c : nat) :
  map (map f) (Double.full v r c) = Double.full (f v) r c.
Proof. unfold Double.full. rewrite !map_repeat. reflexivity. Qed.

Lemma maximum_same (v : float) : Double.maximum v v = v.
Proof. unfold Double.maximum. destruct (_ || _); reflexivity. Qed.

Lemma minimum_same (v : float) : Double.minimum v v = v.
Proof. unfold Double.minimum. destruct (_ || _); reflexivity. Qed.

Lemma amax_repeat (v : float) (n : nat) :
  (0 < n)%nat -> Double.amax (repeat v n) = Ok v.
Proof.
  destruct n as [|n]; [lia|]. intros _. simpl. f_equal.
  induction n as [|n IH]; simpl; [reflexivity|].
  rewrite maximum_same. exact IH.
Qed.

Lemma amin_repeat (v : float) (n : nat) :
  (0 < n)%nat -> Double.amin (repeat v n) = Ok v.
Proof.
  destruct n as [|n]; [lia|]. intros _. simpl. f_equal.
  induction n as [|n IH]; simpl; [reflexivity|].
  rewrite minimum_same. exact IH.
Qed.

(** Magnitudes that are all 0.5 are left as they are: the smallest is
    not below the largest. *)
Lemma maximize_contrast_half (n : nat) :
  (0 < n)%nat ->
  Double.maximize_contrast true (repeat 0.5%float n)
  = Ok (repeat 0.5%float n).
Proof.
  intro Hn. unfold Double.maximize_contrast.
  rewrite (amin_repeat _ n Hn), (amax_repeat _ n Hn), !bind_Ok.
  reflexivity.
Qed.

Lemma encode_exact (coding : string) (const_amp const_freq : Qc)
    (ts dur pulsedur interphasedur : Qc) (pulsetype : string)
    (m : float) (v : Qc) :
  Double.exact m = Some v ->
  Double.encode coding const_amp const_freq ts dur pulsedur interphasedur
    pulsetype m
  = Some (encode coding const_amp const_freq ts dur pulsedur interphasedur
            pulsetype v).
Proof.
  intro Hm. unfold Double.encode, encode. rewrite Hm.
  destruct (String.eqb coding "amplitude"); [reflexivity|].
  destruct (String.eqb coding "frequency"); reflexivity.
Qed.

Lemma encode_each_repeat (coding : string) (const_amp const_freq : Qc)
    (ts dur pulsedur interphasedur : Qc) (pulsetype : string)
    (m : float) (v : Qc) (n : nat) :
  Double.exact m = Some v ->
  Double.encode_each coding const_amp const_freq ts dur pulsedur
    interphasedur pulsetype (repeat m n)
  = Some (collect (repeat (encode coding const_amp const_freq ts dur pulsedur
                             interphasedur pulsetype v) n)).
Proof.
  intro Hm. induction n as [|n IH]; [reflexivity|].
  cbn [repeat Double.encode_each collect].
  rewrite (encode_exact _ _ _ _ _ _ _ _ _ _ Hm), IH.
  destruct (encode coding const_amp const_freq ts dur pulsedur interphasedur
              pulsetype v) as [pt|e]; reflexivity.
Qed.

Section UniformImage.

Variable np_sum : Double.matrix -> float.
Variable resize : Double.matrix -> Qc * Qc -> Double.matrix.
Variable receptive_field :
  Electrode -> grid -> grid -> string -> option Qc -> Double.matrix.

Variables (rows cols : nat) (implant : ElectrodeArray).
Variables (coding : string) (lo hi : float) (const_amp const_freq : Qc).
Variables (rftype : string) (rfsize : option Qc) (invert : bool).
Variables (ts dur pulsedur interphasedur : Qc) (pulsetype : string).

Hypothesis some_electrode : (0 < length implant)%nat.
Hypothesis range : (lo <? hi)%float = true.
Hypothesis some_rows : (0 < rows)%nat.
Hypothesis some_cols : (0 < cols)%nat.

(** The resized image has a cell, and the weighted average that is
    computed on it for every electrode is 0.5. *)
Hypothesis resize_cell :
  forall shape,
    (0 < length (hd [] (resize (Double.full 0.5%float rows cols) shape)))%nat.
Hypothesis average_half :
  forall shape xg yg e,
    let img_resize := resize (Double.full 0.5%float rows cols) shape in
    In e implant ->
    n_rows xg = length (hd [] img_resize) ->
    n_cols xg = length img_resize ->
    Double.magnitude np_sum receptive_field img_resize xg yg rftype rfsize e
    = Ok 0.5%float.

Lemma magnitudes_uniform :
  Double.magnitudes np_sum resize receptive_field
    (Double.full 0.5%float rows cols) implant [lo; hi] true rftype rfsize
    invert
  = Ok (repeat (0.5 * (hi - lo) + lo)%float (length implant)).
Proof.
  unfold Double.magnitudes. rewrite range. simpl negb. cbv iota.
  assert (Hcells : (0 < rows * cols)%nat) by nia.
  rewrite map_map_full.
  change (Double.astype_float32 0.5%float) with 0.5%float.
  rewrite concat_full, (amax_repeat _ _ Hcells), bind_Ok.
  change ((1 <? 0.5)%float) with false. cbv iota.
  rewrite concat_full, !forallb_repeat by reflexivity.
  simpl negb. cbv iota.
  assert (Himg : (if invert
                  then map (map (fun x => Double.sub32 1%float x))
                         (Double.full 0.5%float rows cols)
                  else Double.full 0.5%float rows cols)
                 = Double.full 0.5%float rows cols).
  { destruct invert; [|reflexivity]. rewrite map_map_full. reflexivity. }
  rewrite Himg. clear Himg.
  destruct implant as [|e1 rest] eqn:Eimplant; [simpl in some_electrode; lia|].
  rewrite <- Eimplant in *.
  assert (Hmin : forall f, exists m, np_min (map f implant) = Ok m)
    by (intro f; rewrite Eimplant; simpl; eauto).
  assert (Hmax : forall f, exists m, np_max (map f implant) = Ok m)
    by (intro f; rewrite Eimplant; simpl; eauto).
  destruct (Hmin (fun e => (x_center e - radius e)%Qc)) as [xlo ->].
  destruct (Hmax (fun e => (x_center e + radius e)%Qc)) as [xhi ->].
  destruct (Hmin (fun e => (y_center e - radius e)%Qc)) as [ylo ->].
  destruct (Hmax (fun e => (y_center e + radius e)%Qc)) as [yhi ->].
  rewrite !bind_Ok.
  set (shape := ((yhi - ylo)%Qc, (xhi - xlo)%Qc)).
  set (img_resize := resize (Double.full 0.5%float rows cols) shape).
  destruct (np_meshgrid (np_linspace ylo yhi (length img_resize))
              (np_linspace xlo xhi (length (hd [] img_resize))))
    as [yg xg] eqn:Emesh.
  assert (Hxg : n_rows xg = length (hd [] img_resize)
                /\ n_cols xg = length img_resize).
  { pose proof (np_meshgrid_shape
                  (np_linspace ylo yhi (length img_resize))
                  (np_linspace xlo xhi (length (hd [] img_resize)))) as H.
    rewrite Emesh, !np_linspace_length in H. apply H, resize_cell. }
  destruct Hxg as [Hxr Hxc].
  rewrite (map_const_repeat _ (Ok 0.5%float)).
  - rewrite collect_repeat_Ok, bind_Ok.
    rewrite maximize_contrast_half, bind_Ok by exact some_electrode.
    unfold Double.scale_to_range. rewrite map_repeat. reflexivity.
  - intros e He. apply (average_half shape xg yg e He Hxr Hxc).
Qed.

End UniformImage.






(* ================================================================= *)
(** * Further properties *)

(** ** MonophasicPulse: polarity and refusals *)

Lemma Qcopp_0 : (- 0)%Qc = 0%Qc.
Proof. ring. Qed.

Lemma np_neg_zeros (n : nat) : np_neg (repeat 0%Qc n) = repeat 0%Qc n.
Proof. rewrite np_neg_repeat, Qcopp_0. reflexivity. Qed.

Lemma np_neg_app (a b : samples) : np_neg (a ++ b) = np_neg a ++ np_neg b.
Proof. apply map_app. Qed.

Lemma np_neg_slice_to (n : Z) (a : samples) :
  np_neg (slice_to n a) = slice_to n (np_neg a).
Proof.
  unfold slice_to, np_neg. rewrite length_map.
  destruct (n <? 0); symmetry; apply firstn_map.
Qed.

(** X1.  A cathodic pulse is the anodic pulse of the same arguments
    with every sample negated, and it is refused exactly when the
    anodic pulse is, with the same error. *)
Theorem MonophasicPulse_cathodic_negates_anodic
    (pdur ts delay_dur : Qc) (stim_dur : option Qc) :
  MonophasicPulse "cathodic" pdur ts delay_dur stim_dur
  = do p <- MonophasicPulse "anodic" pdur ts delay_dur stim_dur;
    Ok (mkTimeSeries (tsample p) (np_neg (data p))).
Proof.
  unfold MonophasicPulse. destruct (Qcleb ts 0%Qc); [reflexivity|].
  simpl String.eqb. cbv iota.
  destruct (np_ones (np_round (pdur / ts)%Qc)) as [o|e] eqn:Eo;
    [|reflexivity].
  apply np_ones_inv in Eo. destruct Eo as [_ ->]. rewrite !bind_Ok.
  destruct (np_zeros (np_round (delay_dur / ts)%Qc)) as [z1|e] eqn:E1;
    [|reflexivity].
  apply np_zeros_inv in E1. destruct E1 as [_ ->]. rewrite !bind_Ok.
  match goal with
  | |- context [np_zeros ?n] => destruct (np_zeros n) as [z2|e] eqn:E2
  end; [|reflexivity].
  apply np_zeros_inv in E2. destruct E2 as [_ ->]. rewrite !bind_Ok.
  simpl. rewrite np_neg_slice_to, !np_neg_app, !np_neg_zeros. reflexivity.
Qed.

Lemma np_zeros_negative (n : Z) :
  n < 0 -> np_zeros n = Raise negative_dimensions.
Proof. intro H. unfold np_zeros. apply Z.ltb_lt in H. rewrite H. reflexivity. Qed.

Lemma np_ones_negative (n : Z) :
  n < 0 -> np_ones n = Raise negative_dimensions.
Proof. intro H. unfold np_ones. apply Z.ltb_lt in H. rewrite H. reflexivity. Qed.

(** X2.  What [MonophasicPulse] refuses, in the order it looks: a
    sampling step that is not positive, whatever the other arguments;
    then a type other than 'anodic' and 'cathodic', whatever the
    durations; a negative duration is not checked by the function and
    is refused by numpy as a negative size. *)
Theorem MonophasicPulse_refusals
    (ptype : string) (pdur ts delay_dur : Qc) (stim_dur : option Qc) :
  let stim := match stim_dur with
              | None => (pdur + delay_dur)%Qc
              | Some d => d
              end in
  ((ts <= 0)%Qc ->
   MonophasicPulse ptype pdur ts delay_dur stim_dur = Raise tsample_error) /\
  ((0 < ts)%Qc -> ptype <> "anodic" -> ptype <> "cathodic" ->
   MonophasicPulse ptype pdur ts delay_dur stim_dur = Raise ptype_error) /\
  ((0 < ts)%Qc -> ptype = "anodic" \/ ptype = "cathodic" ->
   np_round (pdur / ts)%Qc < 0 \/ np_round (delay_dur / ts)%Qc < 0
     \/ np_round (stim / ts)%Qc < 0 ->
   MonophasicPulse ptype pdur ts delay_dur stim_dur
   = Raise negative_dimensions).
Proof.
  intro stim. unfold MonophasicPulse. fold stim. repeat split.
  - intro H. apply Qcleb_true in H. rewrite H. reflexivity.
  - intros Hts Ha Hc. apply Qcleb_false in Hts. rewrite Hts.
    apply String.eqb_neq in Ha, Hc. rewrite Ha, Hc. reflexivity.
  - intros Hts Hp Hneg. apply Qcleb_false in Hts. rewrite Hts.
    destruct (Z.lt_ge_cases (np_round (pdur / ts)%Qc) 0) as [Hn|Hn].
    { destruct Hp as [-> | ->]; simpl; rewrite (np_ones_negative _ Hn);
        reflexivity. }
    assert (Hphase : exists pulse,
      (if String.eqb ptype "cathodic"
       then do o <- np_ones (np_round (pdur / ts)%Qc); Ok (np_neg o)
       else if String.eqb ptype "anodic"
            then np_ones (np_round (pdur / ts)%Qc)
            else Raise ptype_error) = Ok pulse).
    { destruct Hp as [-> | ->]; simpl; rewrite np_ones_ok by exact Hn;
        simpl; eauto. }
    destruct Hphase as [pulse ->]. rewrite bind_Ok.
    destruct (Z.lt_ge_cases (np_round (delay_dur / ts)%Qc) 0) as [Hd|Hd].
    { rewrite (np_zeros_negative _ Hd). reflexivity. }
    rewrite (np_zeros_ok _ Hd), bind_Ok.
    rewrite np_zeros_negative; [reflexivity | lia].
Qed.

(** A step of zero; the type 'positive'; a phase of -1 ms. *)
Lemma MonophasicPulse_refusals_witness :
  MonophasicPulse "positive" (dec 1 1000) 0%Qc 0%Qc None
    = Raise tsample_error /\
  MonophasicPulse "positive" (dec (-1) 1000) (dec 1 10000) 0%Qc None
    = Raise ptype_error /\
  MonophasicPulse "anodic" (dec (-1) 1000) (dec 1 10000) 0%Qc None
    = Raise negative_dimensions.
Proof.
  split; [|split].
  - refine (proj1 (MonophasicPulse_refusals "positive" (dec 1 1000) 0%Qc
                     0%Qc None) _).
    vm_compute. discriminate.
  - refine (proj1 (proj2 (MonophasicPulse_refusals "positive"
                            (dec (-1) 1000) (dec 1 10000) 0%Qc None))
              eq_refl _ _); discriminate.
  - refine (proj2 (proj2 (MonophasicPulse_refusals "anodic"
                            (dec (-1) 1000) (dec 1 10000) 0%Qc None))
              eq_refl (or_introl eq_refl) (or_introl eq_refl)).
Defined.

Lemma dec_succ (n : nat) :
  dec (Z.of_nat (S n)) 1 = (1 + dec (Z.of_nat n) 1)%Qc.
Proof.
  apply Qc_is_canon. unfold dec, Qcplus, Q2Qc. cbn [this].
  rewrite !Qred_correct. unfold Qeq, Qplus. cbn [Qnum Qden]. lia.
Qed.

Lemma np_sum_repeat (x : Qc) (n : nat) :
  np_sum (repeat x n) = (dec (Z.of_nat n) 1 * x)%Qc.
Proof.
  induction n as [|n IH].
  - change (dec (Z.of_nat 0) 1) with 0%Qc. unfold np_sum. simpl. ring.
  - cbn [repeat]. rewrite np_sum_cons, IH, dec_succ. ring.
Qed.

Lemma firstn_repeat_le {A : Type} (x : A) (k s : nat) :
  (k <= s)%nat -> firstn k (repeat x s) = repeat x k.
Proof.
  revert s. induction k as [|k IH]; intros [|s] H; simpl; try lia;
    try reflexivity.
  f_equal. apply IH. lia.
Qed.

Lemma firstn_padded (s d : nat) (front : samples) :
  length front = d -> (d <= s)%nat ->
  firstn s (front ++ repeat 0%Qc s) = front ++ repeat 0%Qc (s - d).
Proof.
  intros <- Hle. rewrite firstn_app, firstn_all2 by exact Hle.
  f_equal. apply firstn_repeat_le. lia.
Qed.

(** X3.  When the delay and the phase fit into the stimulus, nothing is
    cut: the samples are the delay, the whole phase and the zeros that
    fill the stimulus, and they add up to plus or minus the number of
    samples of the phase. *)
Theorem MonophasicPulse_fits
    (ptype : string) (pdur ts delay_dur : Qc) (stim_dur : option Qc) :
  ptype = "anodic" \/ ptype = "cathodic" ->
  (0 < ts)%Qc ->
  let stim := match stim_dur with
              | None => (pdur + delay_dur)%Qc
              | Some d => d
              end in
  let phase_samples := np_round (pdur / ts)%Qc in
  let delay_samples := np_round (delay_dur / ts)%Qc in
  let stim_samples := np_round (stim / ts)%Qc in
  0 <= phase_samples -> 0 <= delay_samples ->
  delay_samples + phase_samples <= stim_samples ->
  let samples :=
    repeat 0%Qc (Z.to_nat delay_samples)
    ++ repeat (polarity ptype) (Z.to_nat phase_samples)
    ++ repeat 0%Qc (Z.to_nat (stim_samples - delay_samples - phase_samples)) in
  MonophasicPulse ptype pdur ts delay_dur stim_dur
    = Ok (mkTimeSeries ts samples) /\
  np_sum samples = (polarity ptype * dec phase_samples 1)%Qc.
Proof.
  intros Hp Hts stim phase_samples delay_samples stim_samples Hn Hd Hfit
    samples.
  assert (Hs : 0 <= stim_samples) by lia.
  destruct (MonophasicPulse_returns ptype pdur ts delay_dur stim_dur Hp Hts
              Hn Hd Hs) as [p Hret].
  destruct (MonophasicPulse_inv ptype pdur ts delay_dur stim_dur Hp Hts p
              Hret) as (_ & _ & _ & Hstep & Hdata & _).
  fold stim in Hdata. fold phase_samples in Hdata.
  fold delay_samples in Hdata. fold stim_samples in Hdata.
  split.
  - rewrite Hret. destruct p as [step samples']. simpl in Hstep, Hdata.
    subst step samples'. f_equal. f_equal. unfold monophasic_buffer, samples.
    rewrite app_assoc.
    rewrite (firstn_padded _ (Z.to_nat delay_samples + Z.to_nat phase_samples)).
    + rewrite <- app_assoc. repeat f_equal. lia.
    + rewrite length_app, !repeat_length. reflexivity.
    + lia.
  - unfold samples. rewrite !np_sum_app, !np_sum_zeros, np_sum_repeat.
    rewrite Z2Nat.id by exact Hn. ring.
Qed.

(** A cathodic phase of 2 ms after a delay of 1 ms in a stimulus of
    5 ms, sampled every millisecond. *)
Lemma MonophasicPulse_fits_witness :
  MonophasicPulse "cathodic" (dec 2 1000) (dec 1 1000) (dec 1 1000)
    (Some (dec 5 1000))
  = Ok (mkTimeSeries (dec 1 1000)
          ([0%Qc] ++ repeat (- (1))%Qc 2 ++ repeat 0%Qc 2)) /\
  np_sum ([0%Qc] ++ repeat (- (1))%Qc 2 ++ repeat 0%Qc 2)
  = ((- (1)) * dec 2 1)%Qc.
Proof.
  refine (MonophasicPulse_fits "cathodic" (dec 2 1000) (dec 1 1000)
            (dec 1 1000) (Some (dec 5 1000)) (or_intror eq_refl) eq_refl
            _ _ _); vm_compute; discriminate.
Defined.

(** ** BiphasicPulse: refusals and symmetry *)

(** The phase that [BiphasicPulse] asks for, as an equation. *)
Lemma MonophasicPulse_phase_eq (q : string) (pdur ts : Qc) :
  (0 < ts)%Qc -> q = "anodic" \/ q = "cathodic" ->
  MonophasicPulse q pdur ts 0%Qc (Some pdur)
  = if np_round (pdur / ts)%Qc <? 0 then Raise negative_dimensions
    else Ok (mkTimeSeries ts
               (repeat (polarity q) (Z.to_nat (np_round (pdur / ts)%Qc)))).
Proof.
  intros Hts Hq. destruct (np_round (pdur / ts)%Qc <? 0) eqn:E.
  - apply Z.ltb_lt in E. pose proof Hts as Hts'.
    apply Qcleb_false in Hts'. unfold MonophasicPulse. rewrite Hts'.
    destruct Hq as [-> | ->]; simpl; rewrite (np_ones_negative _ E);
      reflexivity.
  - apply Z.ltb_ge in E.
    destruct (MonophasicPulse_returns q pdur ts 0%Qc (Some pdur) Hq Hts)
      as [p Hp]; try exact E.
    { rewrite Qcdiv_0_l. change (np_round 0%Qc) with 0. lia. }
    rewrite Hp. f_equal.
    destruct (MonophasicPulse_phase q pdur ts p Hq Hts Hp) as [_ Hdata].
    destruct (MonophasicPulse_inv q pdur ts 0%Qc (Some pdur) Hq Hts p Hp)
      as (_ & _ & _ & Hstep & _).
    destruct p as [step samples]. simpl in *. congruence.
Qed.

(** [BiphasicPulse] for a positive step, case by case. *)
Lemma BiphasicPulse_eq (ptype : string) (pdur ts interphase_dur : Qc) :
  (0 < ts)%Qc ->
  BiphasicPulse ptype pdur ts interphase_dur
  = if np_round (pdur / ts)%Qc <? 0 then Raise negative_dimensions
    else if py_round (interphase_dur / ts)%Qc <? 0
    then Raise negative_dimensions
    else if String.eqb ptype "cathodicfirst" || String.eqb ptype "anodicfirst"
    then Ok (mkTimeSeries ts
               (biphasic_samples ptype (np_round (pdur / ts)%Qc)
                  (py_round (interphase_dur / ts)%Qc)))
    else Raise biphasic_type_error.
Proof.
  intro Hts. pose proof Hts as Hts'. apply Qcleb_false in Hts'.
  unfold BiphasicPulse. rewrite Hts'.
  rewrite !MonophasicPulse_phase_eq by (auto; exact Hts).
  destruct (np_round (pdur / ts)%Qc <? 0); [reflexivity|].
  rewrite !bind_Ok. unfold np_zeros.
  destruct (py_round (interphase_dur / ts)%Qc <? 0); [reflexivity|].
  rewrite bind_Ok. unfold biphasic_samples, first_phase. cbn [data].
  destruct (String.eqb ptype "cathodicfirst") eqn:Ec.
  - simpl orb. cbv iota. rewrite <- app_assoc. unfold polarity. simpl.
    replace (- - (1))%Qc with 1%Qc by ring. reflexivity.
  - simpl orb. destruct (String.eqb ptype "anodicfirst"); [|reflexivity].
    rewrite <- app_assoc. reflexivity.
Qed.

(** X4.  What [BiphasicPulse] refuses, in the order it looks: a step
    that is not positive; a negative duration of the phase, then of
    the gap between the phases, both as numpy's negative size and both
    before the type is looked at; and only then a type other than
    'cathodicfirst' and 'anodicfirst'. *)
Theorem BiphasicPulse_refusals
    (ptype : string) (pdur ts interphase_dur : Qc) :
  let phase_samples := np_round (pdur / ts)%Qc in
  let gap_samples := py_round (interphase_dur / ts)%Qc in
  ((ts <= 0)%Qc ->
   BiphasicPulse ptype pdur ts interphase_dur = Raise tsample_error) /\
  ((0 < ts)%Qc -> phase_samples < 0 ->
   BiphasicPulse ptype pdur ts interphase_dur = Raise negative_dimensions) /\
  ((0 < ts)%Qc -> 0 <= phase_samples -> gap_samples < 0 ->
   BiphasicPulse ptype pdur ts interphase_dur = Raise negative_dimensions) /\
  ((0 < ts)%Qc -> 0 <= phase_samples -> 0 <= gap_samples ->
   ptype <> "cathodicfirst" -> ptype <> "anodicfirst" ->
   BiphasicPulse ptype pdur ts interphase_dur = Raise biphasic_type_error).
Proof.
  intros phase_samples gap_samples. repeat split.
  - intro H. apply Qcleb_true in H. unfold BiphasicPulse. rewrite H.
    reflexivity.
  - intros Hts Hn. rewrite BiphasicPulse_eq by exact Hts.
    apply Z.ltb_lt in Hn. fold phase_samples. rewrite Hn. reflexivity.
  - intros Hts Hn Hg. rewrite BiphasicPulse_eq by exact Hts.
    apply Z.ltb_ge in Hn. apply Z.ltb_lt in Hg.
    fold phase_samples gap_samples. rewrite Hn, Hg. reflexivity.
  - intros Hts Hn Hg Hc Ha. rewrite BiphasicPulse_eq by exact Hts.
    apply Z.ltb_ge in Hn, Hg. apply String.eqb_neq in Hc, Ha.
    fold phase_samples gap_samples. rewrite Hn, Hg, Hc, Ha. reflexivity.
Qed.

(** A step of zero; a phase of -1 ms with an unknown type; a gap of
    -1 ms; the type 'biphasic'. *)
Lemma BiphasicPulse_refusals_witness :
  BiphasicPulse "biphasic" (dec 1 1000) 0%Qc 0%Qc = Raise tsample_error /\
  BiphasicPulse "biphasic" (dec (-1) 1000) (dec 1 10000) 0%Qc
    = Raise negative_dimensions /\
  BiphasicPulse "anodicfirst" (dec 1 1000) (dec 1 10000) (dec (-1) 1000)
    = Raise negative_dimensions /\
  BiphasicPulse "biphasic" (dec 1 1000) (dec 1 10000) 0%Qc
    = Raise biphasic_type_error.
Proof.
  split; [|split; [|split]].
  - refine (proj1 (BiphasicPulse_refusals "biphasic" (dec 1 1000) 0%Qc 0%Qc)
              _).
    vm_compute. discriminate.
  - exact (proj1 (proj2 (BiphasicPulse_refusals "biphasic" (dec (-1) 1000)
                           (dec 1 10000) 0%Qc)) eq_refl eq_refl).
  - refine (proj1 (proj2 (proj2 (BiphasicPulse_refusals "anodicfirst"
                                   (dec 1 1000) (dec 1 10000)
                                   (dec (-1) 1000))))
              eq_refl _ eq_refl).
    vm_compute. discriminate.
  - refine (proj2 (proj2 (proj2 (BiphasicPulse_refusals "biphasic"
                                   (dec 1 1000) (dec 1 10000) 0%Qc)))
              eq_refl _ _ _ _); try discriminate;
      vm_compute; discriminate.
Defined.

Lemma rev_repeat_same {A : Type} (x : A) (n : nat) :
  rev (repeat x n) = repeat x n.
Proof.
  induction n as [|n IH]; [reflexivity|].
  simpl. rewrite IH. symmetry. apply repeat_cons.
Qed.

Lemma np_neg_biphasic (n g : Z) :
  np_neg (biphasic_samples "cathodicfirst" n g)
  = biphasic_samples "anodicfirst" n g.
Proof.
  unfold biphasic_samples, first_phase. simpl.
  rewrite !np_neg_app, !np_neg_repeat, Qcopp_0.
  replace (- - (1))%Qc with 1%Qc by ring.
  replace (- - - (1))%Qc with (- (1))%Qc by ring. reflexivity.
Qed.

Lemma rev_biphasic (n g : Z) :
  rev (biphasic_samples "cathodicfirst" n g)
  = biphasic_samples "anodicfirst" n g.
Proof.
  unfold biphasic_samples, first_phase. simpl.
  rewrite !rev_app_distr, !rev_repeat_same, <- app_assoc.
  replace (- - (1))%Qc with 1%Qc by ring. reflexivity.
Qed.

(** X5.  An anodic-first pulse is the cathodic-first pulse of the same
    arguments with every sample negated, refused exactly when that one
    is and with the same error; and negating a cathodic-first pulse is
    the same as playing it backwards. *)
Theorem BiphasicPulse_anodicfirst_mirrors_cathodicfirst
    (pdur ts interphase_dur : Qc) :
  BiphasicPulse "anodicfirst" pdur ts interphase_dur
  = (do c <- BiphasicPulse "cathodicfirst" pdur ts interphase_dur;
     Ok (mkTimeSeries (tsample c) (np_neg (data c)))) /\
  (forall c, BiphasicPulse "cathodicfirst" pdur ts interphase_dur = Ok c ->
     np_neg (data c) = rev (data c)).
Proof.
  destruct (Qclt_le_dec 0%Qc ts) as [Hts|Hts].
  - rewrite !BiphasicPulse_eq by exact Hts. simpl orb. cbv iota.
    destruct (np_round (pdur / ts)%Qc <? 0);
      [split; [reflexivity | discriminate]|].
    destruct (py_round (interphase_dur / ts)%Qc <? 0);
      [split; [reflexivity | discriminate]|].
    rewrite bind_Ok. cbn [tsample data]. rewrite np_neg_biphasic.
    split; [reflexivity|].
    intros c Hc. injection Hc as <-. cbn [data].
    rewrite np_neg_biphasic, rev_biphasic. reflexivity.
  - apply Qcleb_true in Hts. unfold BiphasicPulse. rewrite Hts.
    split; [reflexivity | discriminate].
Qed.

(** A pulse of two samples per phase with a gap of one sample. *)
Lemma BiphasicPulse_anodicfirst_mirrors_cathodicfirst_witness :
  exists c,
    BiphasicPulse "cathodicfirst" (dec 2 1000) (dec 1 1000) (dec 1 1000)
    = Ok c /\
    size (data c) = 5 /\
    np_neg (data c) = rev (data c).
Proof.
  destruct (BiphasicPulse "cathodicfirst" (dec 2 1000) (dec 1 1000)
              (dec 1 1000)) as [c|e] eqn:E;
    [|vm_compute in E; discriminate].
  exists c. split; [reflexivity|]. split.
  - vm_compute in E. injection E as <-. reflexivity.
  - exact (proj2 (BiphasicPulse_anodicfirst_mirrors_cathodicfirst
                    (dec 2 1000) (dec 1 1000) (dec 1 1000)) c E).
Defined.

(** ** PulseTrain: the envelopes, the cut and the refusals *)

Lemma envelopes_eq (n : nat) (pulseorder : string)
    (delay pulse gap pulse_train : samples) :
  pulseorder = "pulsefirst" \/ pulseorder = "gapfirst" ->
  envelopes n pulseorder delay pulse gap pulse_train
  = Ok (pulse_train
        ++ concat (repeat (envelope pulseorder delay pulse gap) n)).
Proof.
  intro Hpo. revert pulse_train.
  induction n as [|n IH]; intro pulse_train; simpl.
  - rewrite app_nil_r. reflexivity.
  - unfold envelope.
    destruct Hpo as [-> | ->]; simpl String.eqb; cbv iota; rewrite IH;
      unfold envelope; simpl String.eqb; cbv iota;
      rewrite <- !app_assoc; reflexivity.
Qed.

Lemma envelopes_unrecognised (n : nat) (pulseorder : string)
    (delay pulse gap pulse_train : samples) :
  pulseorder <> "pulsefirst" -> pulseorder <> "gapfirst" ->
  envelopes n pulseorder delay pulse gap pulse_train
  = match n with
    | O => Ok pulse_train
    | S _ => Raise pulseorder_error
    end.
Proof.
  intros Hp Hg. apply String.eqb_neq in Hp, Hg.
  destruct n as [|n]; simpl; [reflexivity|]. rewrite Hp, Hg. reflexivity.
Qed.

(** The zero-fill never fails: it adds the samples that are missing,
    none when there are enough. *)
Lemma fill_eq (stim_size : Z) (pulse_train : samples) :
  (if size pulse_train <? stim_size then
     let fill_size := stim_size - size pulse_train in
     do z <- np_zeros fill_size; Ok (pulse_train ++ z)
   else Ok pulse_train)
  = Ok (pulse_train
        ++ repeat 0%Qc (Z.to_nat (stim_size - size pulse_train))).
Proof.
  destruct (size pulse_train <? stim_size) eqn:E.
  - apply Z.ltb_lt in E. cbv zeta. rewrite np_zeros_ok by lia. reflexivity.
  - apply Z.ltb_ge in E.
    replace (Z.to_nat (stim_size - size pulse_train)) with 0%nat by lia.
    simpl. rewrite app_nil_r. reflexivity.
Qed.

(** [PulseTrain] past the short-circuit, for a positive step. *)
Lemma PulseTrain_eq (ts freq amp dur delay pulse_dur interphase_dur : Qc)
    (pulsetype pulseorder : string) :
  (0 < ts)%Qc ->
  np_isclose freq 0%Qc = false ->
  np_isclose amp 0%Qc = false ->
  PulseTrain ts freq amp dur delay pulse_dur interphase_dur
    pulsetype pulseorder
  = let stim_size := np_round (dur / ts)%Qc in
    let delay_size := np_round (delay / ts)%Qc in
    if delay_size <? 0 then Raise delay_error
    else
      do bp <- BiphasicPulse pulsetype pulse_dur ts interphase_dur;
      let pulse := np_scale amp (data bp) in
      let gap_size :=
        np_round (1 / freq / ts)%Qc - (delay_size + size pulse) in
      if gap_size <? 0 then Raise fit_error
      else
        do pulse_train <-
          envelopes (Z.to_nat (np_ceil (dur * freq)%Qc)) pulseorder
            (repeat 0%Qc (Z.to_nat delay_size)) pulse
            (repeat 0%Qc (Z.to_nat gap_size)) [];
        Ok (mkTimeSeries ts
              (slice_to stim_size
                 (pulse_train
                  ++ repeat 0%Qc (Z.to_nat (stim_size - size pulse_train))))).
Proof.
  intros Hts Hf Ha. apply Qcleb_false in Hts.
  unfold PulseTrain. rewrite Hts, Hf, Ha, !Qcmult_1_div. simpl orb.
  cbv iota zeta.
  destruct (np_round (delay / ts)%Qc <? 0) eqn:Ed; [reflexivity|].
  apply Z.ltb_ge in Ed. rewrite (np_zeros_ok _ Ed), bind_Ok.
  destruct (BiphasicPulse pulsetype pulse_dur ts interphase_dur) as [bp|e];
    [|reflexivity].
  rewrite !bind_Ok.
  pose proof (size_nonneg (np_scale amp (data bp))) as Hp.
  apply Z.ltb_ge in Hp. rewrite Hp.
  match goal with
  | |- (if ?c then _ else _) = _ => destruct c eqn:Eg
  end; [reflexivity|].
  apply Z.ltb_ge in Eg. rewrite (np_zeros_ok _ Eg), bind_Ok.
  match goal with
  | |- bind ?m _ = _ => destruct m as [train|e]
  end; [|reflexivity].
  rewrite !bind_Ok, fill_eq, bind_Ok. reflexivity.
Qed.

Lemma size_concat_repeat (e : samples) (n : nat) :
  size (concat (repeat e n)) = Z.of_nat n * size e.
Proof.
  induction n as [|n IH]; [reflexivity|].
  cbn [repeat concat]. rewrite size_app, IH. lia.
Qed.

Lemma size_np_scale (c : Qc) (a : samples) : size (np_scale c a) = size a.
Proof. unfold size, np_scale. rewrite length_map. reflexivity. Qed.

Lemma size_envelope (pulseorder : string) (delay pulse gap : samples) :
  size (envelope pulseorder delay pulse gap)
  = size delay + size pulse + size gap.
Proof.
  unfold envelope. destruct (String.eqb pulseorder "pulsefirst");
    rewrite !size_app; lia.
Qed.

Section Train.

Variables (ts freq amp dur delay pulse_dur interphase_dur : Qc).
Variables (pulsetype pulseorder : string).

Hypothesis ts_pos : (0 < ts)%Qc.
Hypothesis freq_not_close : np_isclose freq 0%Qc = false.
Hypothesis amp_not_close : np_isclose amp 0%Qc = false.
Hypothesis type_known :
  pulsetype = "cathodicfirst" \/ pulsetype = "anodicfirst".
Hypothesis order_known : pulseorder = "pulsefirst" \/ pulseorder = "gapfirst".

Let stim_size : Z := np_round (dur / ts)%Qc.
Let delay_size : Z := np_round (delay / ts)%Qc.
Let phase_size : Z := np_round (pulse_dur / ts)%Qc.
Let interphase_size : Z := py_round (interphase_dur / ts)%Qc.
Let envelope_size : Z := np_round (1 / freq / ts)%Qc.
Let gap_size : Z :=
  envelope_size - (delay_size + (2 * phase_size + interphase_size)).
Let n : nat := Z.to_nat (np_ceil (dur * freq)%Qc).
Let pulse : samples :=
  np_scale amp (biphasic_samples pulsetype phase_size interphase_size).
Let one_envelope : samples :=
  envelope pulseorder (repeat 0%Qc (Z.to_nat delay_size)) pulse
    (repeat 0%Qc (Z.to_nat gap_size)).
Let pulse_train : samples := concat (repeat one_envelope n).

Hypothesis delay_ok : 0 <= delay_size.
Hypothesis phase_ok : 0 <= phase_size.
Hypothesis interphase_ok : 0 <= interphase_size.
Hypothesis fits : 0 <= gap_size.

Lemma PulseTrain_train :
  PulseTrain ts freq amp dur delay pulse_dur interphase_dur
    pulsetype pulseorder
  = Ok (mkTimeSeries ts
          (slice_to stim_size
             (pulse_train
              ++ repeat 0%Qc (Z.to_nat (stim_size - size pulse_train))))) /\
  size one_envelope = envelope_size.
Proof.
  assert (Hpulse : size pulse = 2 * phase_size + interphase_size).
  { unfold pulse. rewrite size_np_scale.
    apply biphasic_samples_size; assumption. }
  split.
  - rewrite PulseTrain_eq by assumption. cbv zeta.
    fold stim_size delay_size.
    apply Z.ltb_ge in delay_ok. rewrite delay_ok.
    rewrite BiphasicPulse_eq by exact ts_pos.
    fold phase_size interphase_size.
    apply Z.ltb_ge in phase_ok, interphase_ok.
    rewrite phase_ok, interphase_ok.
    replace (String.eqb pulsetype "cathodicfirst"
             || String.eqb pulsetype "anodicfirst") with true
      by (destruct type_known as [-> | ->]; reflexivity).
    rewrite bind_Ok. cbn [data]. fold pulse. rewrite Hpulse.
    fold envelope_size gap_size.
    apply Z.ltb_ge in fits. rewrite fits.
    rewrite envelopes_eq by exact order_known. rewrite bind_Ok.
    reflexivity.
  - unfold one_envelope. rewrite size_envelope, !size_repeat, Hpulse
      by assumption.
    unfold gap_size. lia.
Qed.

End Train.

Lemma np_sum_scale_l (c : Qc) (a : samples) :
  np_sum (np_scale c a) = (c * np_sum a)%Qc.
Proof.
  unfold np_scale. induction a as [|x a IH]; simpl map.
  - unfold np_sum. simpl. ring.
  - rewrite !np_sum_cons, IH. ring.
Qed.

Lemma np_sum_envelope (pulseorder : string) (delay pulse gap : samples) :
  np_sum (envelope pulseorder delay pulse gap)
  = (np_sum delay + np_sum pulse + np_sum gap)%Qc.
Proof.
  unfold envelope. destruct (String.eqb pulseorder "pulsefirst");
    rewrite !np_sum_app; ring.
Qed.

Lemma np_sum_concat_repeat (e : samples) (n : nat) :
  np_sum e = 0%Qc -> np_sum (concat (repeat e n)) = 0%Qc.
Proof.
  intro He. induction n as [|n IH]; [reflexivity|].
  cbn [repeat concat]. rewrite np_sum_app, He, IH. ring.
Qed.

(** X6.  With a positive step, [freq] and [amp] not close to 0, known
    tokens, durations that are not negative and a pulse that fits into
    the period, the pulse train is [ceil(dur * freq)] copies of one
    envelope of [round(1 / freq / tsample)] samples, zero-filled and
    cut to [round(dur / tsample)] samples.  The envelope is the zeros
    of the delay, the biphasic pulse times [amp] and the zeros of the
    gap ('pulsefirst'), or the delay, the gap and the pulse
    ('gapfirst'): the delay comes back in every envelope. *)
Theorem PulseTrain_is_envelopes
    (ts freq amp dur delay pulse_dur interphase_dur : Qc)
    (pulsetype pulseorder : string) :
  (0 < ts)%Qc ->
  np_isclose freq 0%Qc = false ->
  np_isclose amp 0%Qc = false ->
  pulsetype = "cathodicfirst" \/ pulsetype = "anodicfirst" ->
  pulseorder = "pulsefirst" \/ pulseorder = "gapfirst" ->
  let stim_size := np_round (dur / ts)%Qc in
  let delay_size := np_round (delay / ts)%Qc in
  let phase_size := np_round (pulse_dur / ts)%Qc in
  let interphase_size := py_round (interphase_dur / ts)%Qc in
  let envelope_size := np_round (1 / freq / ts)%Qc in
  let gap_size :=
    envelope_size - (delay_size + (2 * phase_size + interphase_size)) in
  let pulse :=
    np_scale amp (biphasic_samples pulsetype phase_size interphase_size) in
  let one_envelope :=
    envelope pulseorder (repeat 0%Qc (Z.to_nat delay_size)) pulse
      (repeat 0%Qc (Z.to_nat gap_size)) in
  let pulse_train :=
    concat (repeat one_envelope (Z.to_nat (np_ceil (dur * freq)%Qc))) in
  0 <= stim_size -> 0 <= delay_size -> 0 <= phase_size ->
  0 <= interphase_size -> 0 <= gap_size ->
  PulseTrain ts freq amp dur delay pulse_dur interphase_dur
    pulsetype pulseorder
  = Ok (mkTimeSeries ts
          (firstn (Z.to_nat stim_size)
             (pulse_train
              ++ repeat 0%Qc (Z.to_nat (stim_size - size pulse_train))))) /\
  size one_envelope = envelope_size.
Proof.
  intros Hts Hf Ha Hty Hor stim_size delay_size phase_size interphase_size
    envelope_size gap_size pulse one_envelope pulse_train Hs Hd Hp Hi Hg.
  destruct (PulseTrain_train ts freq amp dur delay pulse_dur interphase_dur
              pulsetype pulseorder Hts Hf Ha Hty Hor Hd Hp Hi Hg)
    as [Hrun Hsize].
  split; [|exact Hsize].
  rewrite Hrun. fold stim_size. rewrite slice_to_nonneg by exact Hs.
  reflexivity.
Qed.

(** Two envelopes of five samples at 0.2 Hz and a step of 1 s, with a
    delay of one sample, cut to the eight samples of 8 s. *)
Lemma PulseTrain_is_envelopes_witness :
  let one_envelope :=
    [0%Qc; dec (-3) 1; dec 3 1; 0%Qc; 0%Qc] in
  PulseTrain 1%Qc (dec 1 5) (dec 3 1) (dec 8 1) 1%Qc 1%Qc 0%Qc
    "cathodicfirst" "pulsefirst"
  = Ok (mkTimeSeries 1%Qc (firstn 8 (one_envelope ++ one_envelope))).
Proof.
  cbv zeta.
  refine (eq_trans
            (proj1 (PulseTrain_is_envelopes 1%Qc (dec 1 5) (dec 3 1) (dec 8 1)
                      1%Qc 1%Qc 0%Qc "cathodicfirst" "pulsefirst"
                      eq_refl eq_refl eq_refl (or_introl eq_refl)
                      (or_introl eq_refl) _ _ _ _ _)) _);
    try (vm_compute; discriminate).
  vm_compute. reflexivity.
Defined.

(** X7.  Under the same conditions, when the envelopes are not cut
    ([ceil(dur * freq)] envelopes make no more than [round(dur /
    tsample)] samples), the train is all of them followed by the
    zero-fill, and its samples add up to exactly 0. *)
Theorem PulseTrain_balanced_without_cut
    (ts freq amp dur delay pulse_dur interphase_dur : Qc)
    (pulsetype pulseorder : string) :
  (0 < ts)%Qc ->
  np_isclose freq 0%Qc = false ->
  np_isclose amp 0%Qc = false ->
  pulsetype = "cathodicfirst" \/ pulsetype = "anodicfirst" ->
  pulseorder = "pulsefirst" \/ pulseorder = "gapfirst" ->
  let stim_size := np_round (dur / ts)%Qc in
  let delay_size := np_round (delay / ts)%Qc in
  let phase_size := np_round (pulse_dur / ts)%Qc in
  let interphase_size := py_round (interphase_dur / ts)%Qc in
  let envelope_size := np_round (1 / freq / ts)%Qc in
  let gap_size :=
    envelope_size - (delay_size + (2 * phase_size + interphase_size)) in
  let n := Z.to_nat (np_ceil (dur * freq)%Qc) in
  0 <= delay_size -> 0 <= phase_size -> 0 <= interphase_size ->
  0 <= gap_size ->
  Z.of_nat n * envelope_size <= stim_size ->
  exists pt,
    PulseTrain ts freq amp dur delay pulse_dur interphase_dur
      pulsetype pulseorder = Ok pt /\
    size (data pt) = stim_size /\
    np_sum (data pt) = 0%Qc.
Proof.
  intros Hts Hf Ha Hty Hor stim_size delay_size phase_size interphase_size
    envelope_size gap_size n Hd Hp Hi Hg Hcut.
  destruct (PulseTrain_train ts freq amp dur delay pulse_dur interphase_dur
              pulsetype pulseorder Hts Hf Ha Hty Hor Hd Hp Hi Hg)
    as [Hrun Hsize].
  fold stim_size delay_size phase_size interphase_size gap_size n in Hrun.
  fold delay_size phase_size interphase_size envelope_size gap_size
    in Hsize.
  set (one_envelope :=
         envelope pulseorder (repeat 0%Qc (Z.to_nat delay_size))
           (np_scale amp
              (biphasic_samples pulsetype phase_size interphase_size))
           (repeat 0%Qc (Z.to_nat gap_size))) in *.
  set (pulse_train := concat (repeat one_envelope n)) in *.
  assert (Htrain : size pulse_train = Z.of_nat n * envelope_size).
  { unfold pulse_train. rewrite size_concat_repeat, Hsize. reflexivity. }
  assert (Hs : 0 <= stim_size).
  { assert (0 <= envelope_size) by (rewrite <- Hsize; apply size_nonneg).
    nia. }
  set (filled := pulse_train
                 ++ repeat 0%Qc (Z.to_nat (stim_size - size pulse_train))).
  exists (mkTimeSeries ts (slice_to stim_size filled)).
  split; [exact Hrun|]. cbn [data].
  rewrite slice_to_nonneg by exact Hs.
  assert (Hlen : length filled = Z.to_nat stim_size).
  { unfold filled. rewrite length_app, repeat_length.
    unfold size in *. lia. }
  rewrite <- Hlen, firstn_all. split.
  - unfold size. rewrite Hlen. apply Z2Nat.id, Hs.
  - unfold filled. rewrite np_sum_app, np_sum_zeros.
    unfold pulse_train. rewrite np_sum_concat_repeat; [ring|].
    unfold one_envelope.
    rewrite np_sum_envelope, !np_sum_zeros, np_sum_scale_l,
      biphasic_samples_sum. ring.
Qed.

(** Three envelopes of 333 samples at 30 Hz and a step of 0.1 ms in
    the 1000 samples of 0.1 s. *)
Lemma PulseTrain_balanced_without_cut_witness :
  exists pt,
    PulseTrain (dec 1 10000) (dec 30 1) default_amp (dec 1 10) default_delay
      (dec 5 10000) (dec 5 10000) default_pulsetype default_pulseorder
      = Ok pt /\
    size (data pt) = 1000 /\
    np_sum (data pt) = 0%Qc.
Proof.
  refine (PulseTrain_balanced_without_cut (dec 1 10000) (dec 30 1)
            default_amp (dec 1 10) default_delay (dec 5 10000) (dec 5 10000)
            default_pulsetype default_pulseorder eq_refl eq_refl eq_refl
            (or_introl eq_refl) (or_introl eq_refl) _ _ _ _ _);
    vm_compute; discriminate.
Defined.

Lemma Forall_slice_to {A : Type} (P : A -> Prop) (n : Z) (a : list A) :
  Forall P a -> Forall P (slice_to n a).
Proof.
  intro H. unfold slice_to.
  destruct (n <? 0);
    match goal with
    | |- Forall P (firstn ?k a) =>
        rewrite <- (firstn_skipn k a) in H; apply Forall_app in H;
        exact (proj1 H)
    end.
Qed.

Lemma Forall_repeat {A : Type} (P : A -> Prop) (x : A) (n : nat) :
  P x -> Forall P (repeat x n).
Proof.
  intro H. apply Forall_forall. intros y Hy. apply repeat_spec in Hy.
  subst y. exact H.
Qed.

Lemma envelopes_Forall (P : Qc -> Prop) (n : nat) (pulseorder : string)
    (delay pulse gap : samples) :
  Forall P delay -> Forall P pulse -> Forall P gap ->
  forall pulse_train train,
    Forall P pulse_train ->
    envelopes n pulseorder delay pulse gap pulse_train = Ok train ->
    Forall P train.
Proof.
  intros Hd Hp Hg. induction n as [|n IH]; intros pulse_train train Ht H;
    simpl in H.
  - injection H as <-. exact Ht.
  - destruct (String.eqb pulseorder "pulsefirst").
    + apply IH in H; [exact H|]. repeat (apply Forall_app; split);
        assumption.
    + destruct (String.eqb pulseorder "gapfirst"); [|discriminate].
      apply IH in H; [exact H|]. repeat (apply Forall_app; split);
        assumption.
Qed.

Lemma level_pulse (amp : Qc) (pulsetype : string) (n g : Z) :
  Forall (level amp) (np_scale amp (biphasic_samples pulsetype n g)).
Proof.
  assert (Hfirst : first_phase pulsetype = 1%Qc
                   \/ first_phase pulsetype = (- (1))%Qc).
  { unfold first_phase. destruct (String.eqb pulsetype "cathodicfirst");
      auto. }
  unfold np_scale, biphasic_samples. rewrite !map_app, !map_repeat.
  destruct Hfirst as [E | E]; rewrite E;
    repeat (apply Forall_app; split); apply Forall_repeat; unfold level;
    first [ left; ring | right; left; ring | right; right; ring ].
Qed.

(** X8.  Every sample of a pulse train that [PulseTrain] returns is 0,
    [amp] or [-amp], whatever the arguments. *)
Theorem PulseTrain_levels
    (ts freq amp dur delay pulse_dur interphase_dur : Qc)
    (pulsetype pulseorder : string) (pt : TimeSeries) :
  PulseTrain ts freq amp dur delay pulse_dur interphase_dur
    pulsetype pulseorder = Ok pt ->
  Forall (level amp) (data pt).
Proof.
  intro H.
  assert (Hzero : level amp 0%Qc) by (left; reflexivity).
  destruct (Qclt_le_dec 0%Qc ts) as [Hts|Hts].
  2:{ apply Qcleb_true in Hts. unfold PulseTrain in H. rewrite Hts in H.
      discriminate. }
  destruct (np_isclose freq 0%Qc || np_isclose amp 0%Qc) eqn:Eclose.
  - pose proof Hts as Hts'. apply Qcleb_false in Hts'.
    unfold PulseTrain in H. rewrite Hts', Eclose in H.
    apply bind_Ok_inv in H. destruct H as (z & Hz & H).
    apply np_zeros_inv in Hz. destruct Hz as [_ ->].
    injection H as <-. apply Forall_repeat, Hzero.
  - apply orb_false_iff in Eclose. destruct Eclose as [Hf Ha].
    rewrite (PulseTrain_eq _ _ _ _ _ _ _ _ _ Hts Hf Ha) in H.
    cbv zeta in H.
    destruct (np_round (delay / ts)%Qc <? 0); [discriminate|].
    apply bind_Ok_inv in H. destruct H as (bp & Hbp & H).
    rewrite (BiphasicPulse_eq _ _ _ _ Hts) in Hbp.
    destruct (np_round (pulse_dur / ts)%Qc <? 0); [discriminate|].
    destruct (py_round (interphase_dur / ts)%Qc <? 0); [discriminate|].
    destruct (String.eqb pulsetype "cathodicfirst"
              || String.eqb pulsetype "anodicfirst"); [|discriminate].
    injection Hbp as <-. cbn [data] in H.
    match type of H with
    | (if ?c then _ else _) = _ => destruct c; [discriminate|]
    end.
    apply bind_Ok_inv in H. destruct H as (train & Htrain & H).
    injection H as <-. cbn [data].
    apply Forall_slice_to, Forall_app. split.
    + apply (envelopes_Forall (level amp)) in Htrain; try exact Htrain;
        try (apply Forall_repeat, Hzero).
      * apply level_pulse.
      * constructor.
    + apply Forall_repeat, Hzero.
Qed.

(** The train of 7 envelopes at 70 Hz that is cut inside its last
    pulse: its samples are 0, 20 and -20. *)
Lemma PulseTrain_levels_witness :
  exists pt,
    PulseTrain (dec 1 10000) (dec 70 1) (dec 20 1) (dec 1 10) default_delay
      (dec 5 10000) (dec 5 10000) "cathodicfirst" "gapfirst" = Ok pt /\
    Forall (level (dec 20 1)) (data pt).
Proof.
  destruct (PulseTrain (dec 1 10000) (dec 70 1) (dec 20 1) (dec 1 10)
              default_delay (dec 5 10000) (dec 5 10000) "cathodicfirst"
              "gapfirst") as [pt|e] eqn:E;
    [|vm_compute in E; discriminate].
  exists pt. split; [reflexivity|].
  exact (PulseTrain_levels (dec 1 10000) (dec 70 1) (dec 20 1) (dec 1 10)
           default_delay (dec 5 10000) (dec 5 10000) "cathodicfirst"
           "gapfirst" pt E).
Defined.

(** X9.  Past the short-circuit ([tsample > 0], [freq] and [amp] not
    close to 0) [PulseTrain] refuses a negative delay before it looks
    at anything else, and hands on the refusal of [BiphasicPulse]; the
    order token is looked at inside the loop only, so an unknown token
    is refused when at least one envelope is asked for and goes
    unnoticed when none is ([ceil(dur * freq) <= 0], as for [dur = 0]):
    the train is then the zero-fill alone. *)
Theorem PulseTrain_refusals
    (ts freq amp dur delay pulse_dur interphase_dur : Qc)
    (pulsetype pulseorder : string) :
  (0 < ts)%Qc ->
  np_isclose freq 0%Qc = false ->
  np_isclose amp 0%Qc = false ->
  let stim_size := np_round (dur / ts)%Qc in
  let delay_size := np_round (delay / ts)%Qc in
  (delay_size < 0 ->
   PulseTrain ts freq amp dur delay pulse_dur interphase_dur
     pulsetype pulseorder = Raise delay_error) /\
  (forall e, 0 <= delay_size ->
     BiphasicPulse pulsetype pulse_dur ts interphase_dur = Raise e ->
     PulseTrain ts freq amp dur delay pulse_dur interphase_dur
       pulsetype pulseorder = Raise e) /\
  (forall bp, 0 <= delay_size ->
     BiphasicPulse pulsetype pulse_dur ts interphase_dur = Ok bp ->
     0 <= np_round (1 / freq / ts)%Qc - (delay_size + size (data bp)) ->
     pulseorder <> "pulsefirst" -> pulseorder <> "gapfirst" ->
     (1 <= np_ceil (dur * freq)%Qc ->
      PulseTrain ts freq amp dur delay pulse_dur interphase_dur
        pulsetype pulseorder = Raise pulseorder_error) /\
     (np_ceil (dur * freq)%Qc <= 0 -> 0 <= stim_size ->
      PulseTrain ts freq amp dur delay pulse_dur interphase_dur
        pulsetype pulseorder
      = Ok (mkTimeSeries ts (repeat 0%Qc (Z.to_nat stim_size))))).
Proof.
  intros Hts Hf Ha stim_size delay_size.
  rewrite (PulseTrain_eq _ _ _ _ _ _ _ _ _ Hts Hf Ha). cbv zeta.
  fold stim_size delay_size. split; [|split].
  - intro Hd. apply Z.ltb_lt in Hd. rewrite Hd. reflexivity.
  - intros e Hd Hbp. apply Z.ltb_ge in Hd. rewrite Hd, Hbp. reflexivity.
  - intros bp Hd Hbp Hgap Hnp Hng. apply Z.ltb_ge in Hd, Hgap.
    rewrite Hd, Hbp, bind_Ok, size_np_scale, Hgap.
    rewrite envelopes_unrecognised by assumption. split.
    + intro Hn.
      destruct (Z.to_nat (np_ceil (dur * freq)%Qc)) eqn:En; [lia|].
      reflexivity.
    + intros Hn Hs.
      replace (Z.to_nat (np_ceil (dur * freq)%Qc)) with 0%nat by lia.
      rewrite bind_Ok, slice_to_nonneg by exact Hs.
      change (size []) with 0. rewrite Z.sub_0_r. simpl app.
      rewrite firstn_all2 by (rewrite repeat_length; lia). reflexivity.
Qed.

(** A delay of -1 ms; the type 'monophasic'; the order 'sideways' for
    a stimulus of 0.1 s, and for one of no duration. *)
Lemma PulseTrain_refusals_witness :
  PulseTrain (dec 1 10000) default_freq default_amp (dec 1 10)
    (dec (-1) 1000) default_pulse_dur default_interphase_dur "monophasic"
    "sideways" = Raise delay_error /\
  PulseTrain (dec 1 10000) default_freq default_amp (dec 1 10) default_delay
    default_pulse_dur default_interphase_dur "monophasic" "sideways"
    = Raise biphasic_type_error /\
  PulseTrain (dec 1 10000) default_freq default_amp (dec 1 10) default_delay
    default_pulse_dur default_interphase_dur default_pulsetype "sideways"
    = Raise pulseorder_error /\
  PulseTrain (dec 1 10000) default_freq default_amp 0%Qc default_delay
    default_pulse_dur default_interphase_dur default_pulsetype "sideways"
    = Ok (mkTimeSeries (dec 1 10000) []).
Proof.
  split; [|split; [|split]].
  - exact (proj1 (PulseTrain_refusals (dec 1 10000) default_freq default_amp
                    (dec 1 10) (dec (-1) 1000) default_pulse_dur
                    default_interphase_dur "monophasic" "sideways"
                    eq_refl eq_refl eq_refl) eq_refl).
  - refine (proj1 (proj2 (PulseTrain_refusals (dec 1 10000) default_freq
                            default_amp (dec 1 10) default_delay
                            default_pulse_dur default_interphase_dur
                            "monophasic" "sideways" eq_refl eq_refl eq_refl))
              biphasic_type_error _ _).
    + vm_compute. discriminate.
    + vm_compute. reflexivity.
  - refine (proj1 (proj2 (proj2 (PulseTrain_refusals (dec 1 10000)
                                   default_freq default_amp (dec 1 10)
                                   default_delay default_pulse_dur
                                   default_interphase_dur default_pulsetype
                                   "sideways" eq_refl eq_refl eq_refl))
                     (mkTimeSeries (dec 1 10000)
                        (biphasic_samples default_pulsetype 4 4))
                     _ _ _ _ _) _);
      try discriminate; try (vm_compute; discriminate).
    vm_compute. reflexivity.
  - refine (proj2 (proj2 (proj2 (PulseTrain_refusals (dec 1 10000)
                                   default_freq default_amp 0%Qc
                                   default_delay default_pulse_dur
                                   default_interphase_dur default_pulsetype
                                   "sideways" eq_refl eq_refl eq_refl))
                     (mkTimeSeries (dec 1 10000)
                        (biphasic_samples default_pulsetype 4 4))
                     _ _ _ _ _) _ _);
      try discriminate; try (vm_compute; discriminate).
    vm_compute. reflexivity.
Defined.

(** ** parse_pulse_trains: the list, the dict and the round trip *)

Lemma memo_ok_nil (h0 h : heap) : memo_ok h0 h [].
Proof. split; intros; discriminate. Qed.

Lemma memo_ok_grow (h0 h ext : heap) (memo : list (loc * loc)) :
  memo_ok h0 h memo -> memo_ok h0 (h ++ ext) memo.
Proof.
  intros [Hfind Hinj]. split; [|exact Hinj].
  intros o n Hon. destruct (Hfind o n Hon) as (Ho & Hn & Hd).
  split; [exact Ho|]. split; [rewrite length_app; lia|].
  rewrite deref_app by lia. exact Hd.
Qed.

Lemma memo_ok_add (h0 ext : heap) (memo : list (loc * loc)) (x : loc) :
  memo_ok h0 (h0 ++ ext) memo ->
  (x < length h0)%nat ->
  memo_find memo x = None ->
  memo_ok h0 ((h0 ++ ext) ++ [deref (h0 ++ ext) x])
    ((x, length (h0 ++ ext)) :: memo).
Proof.
  intros Hok Hx Hnone.
  pose proof (memo_ok_grow h0 (h0 ++ ext) [deref (h0 ++ ext) x] memo Hok)
    as [Hfind Hinj].
  destruct Hok as [Hfind0 _].
  assert (Hnew : forall o n,
            memo_find ((x, length (h0 ++ ext)) :: memo) o = Some n ->
            (o = x /\ n = length (h0 ++ ext))
            \/ (o <> x /\ memo_find memo o = Some n)).
  { intros o n H. simpl in H. destruct (Nat.eqb x o) eqn:E.
    - apply Nat.eqb_eq in E. injection H as <-. left. auto.
    - apply Nat.eqb_neq in E. right. auto. }
  split.
  - intros o n H. destruct (Hnew o n H) as [[-> ->] | [_ Hm]].
    + split; [exact Hx|]. split; [rewrite !length_app; simpl; lia|].
      unfold deref at 1. rewrite app_nth2 by lia. rewrite Nat.sub_diag.
      simpl. apply deref_app, Hx.
    + exact (Hfind o n Hm).
  - intros o1 o2 n H1 H2.
    destruct (Hnew o1 n H1) as [[-> ->] | [_ Hm1]];
      destruct (Hnew o2 _ H2) as [[-> E2] | [_ Hm2]]; try reflexivity.
    + destruct (Hfind0 o2 _ Hm2) as (_ & Hlt & _). lia.
    + subst n. destruct (Hfind0 o1 _ Hm1) as (_ & Hlt & _). lia.
    + exact (Hinj o1 o2 n Hm1 Hm2).
Qed.

(** The deep copy of a list: what it returns, from a memo in order. *)
Lemma deepcopy_list_spec (h0 : heap) (xs : list loc) :
  forall (memo : list (loc * loc)) (ext : heap) (ys : list loc) (h' : heap),
    memo_ok h0 (h0 ++ ext) memo ->
    Forall (fun l => (l < length h0)%nat) xs ->
    deepcopy_list memo xs (h0 ++ ext) = (ys, h') ->
    exists ext' memo',
      h' = h0 ++ ext' /\
      memo_ok h0 h' memo' /\
      (forall o n, memo_find memo o = Some n -> memo_find memo' o = Some n) /\
      Forall2 (fun x y => memo_find memo' x = Some y) xs ys.
Proof.
  induction xs as [|x xs IH]; intros memo ext ys h' Hok Hxs H; simpl in H.
  - injection H as <- <-. exists ext, memo.
    split; [reflexivity|]. split; [exact Hok|]. split; [auto | constructor].
  - inversion Hxs as [|? ? Hx Hrest]; subst.
    destruct (memo_find memo x) as [y|] eqn:Em.
    + destruct (deepcopy_list memo xs (h0 ++ ext)) as [ys0 h1] eqn:E.
      injection H as <- <-.
      destruct (IH memo ext ys0 h1 Hok Hrest E)
        as (ext' & memo' & -> & Hok' & Hkeep & Hall).
      exists ext', memo'. split; [reflexivity|]. split; [exact Hok'|].
      split; [exact Hkeep|]. constructor; [|exact Hall]. apply Hkeep, Em.
    + unfold deepcopy, alloc in H. cbv beta iota in H.
      match type of H with
      | context [deepcopy_list ?m ?l ?hh] =>
          destruct (deepcopy_list m l hh) as [ys0 h1] eqn:E
      end.
      injection H as <- <-.
      rewrite <- app_assoc in E.
      pose proof (memo_ok_add h0 ext memo x Hok Hx Em) as Hok1.
      rewrite <- app_assoc in Hok1.
      destruct (IH _ _ ys0 h1 Hok1 Hrest E)
        as (ext' & memo' & -> & Hok' & Hkeep & Hall).
      exists ext', memo'. split; [reflexivity|]. split; [exact Hok'|]. split.
      * intros o n Hon. apply Hkeep. simpl.
        destruct (Nat.eqb x o) eqn:Exo; [|exact Hon].
        apply Nat.eqb_eq in Exo. subst o. congruence.
      * constructor; [|exact Hall]. apply Hkeep. simpl.
        rewrite Nat.eqb_refl. reflexivity.
Qed.

Lemma Forall2_nth {A B : Type} (R : A -> B -> Prop) (xs : list A)
    (ys : list B) (i : nat) (a : A) (b : B) :
  Forall2 R xs ys -> (i < length xs)%nat -> R (nth i xs a) (nth i ys b).
Proof.
  intro H. revert i. induction H as [|x y xs ys Hxy _ IH]; intros [|i] Hi;
    simpl in *; try lia; auto. apply IH. lia.
Qed.

Lemma Forall2_Forall_r {A B : Type} (R : A -> B -> Prop) (P : B -> Prop)
    (xs : list A) (ys : list B) :
  Forall2 R xs ys -> (forall x y, R x y -> P y) -> Forall P ys.
Proof.
  intros H HP. induction H as [|x y xs ys Hxy _ IH]; constructor; eauto.
Qed.

Lemma Forall2_map_eq {A B C : Type} (R : A -> B -> Prop) (f : B -> C)
    (g : A -> C) (xs : list A) (ys : list B) :
  Forall2 R xs ys -> (forall x y, R x y -> f y = g x) ->
  map f ys = map g xs.
Proof.
  intros H Hfg. induction H as [|x y xs ys Hxy _ IH]; [reflexivity|].
  simpl. f_equal; eauto.
Qed.

(** The deep copy of a list of valid references, started afresh. *)
Lemma deepcopy_list_fresh (h : heap) (pts res : list loc) (h' : heap) :
  valid_refs h pts ->
  deepcopy_list [] pts h = (res, h') ->
  exists new memo,
    h' = h ++ new /\
    memo_ok h h' memo /\
    Forall2 (fun x y => memo_find memo x = Some y) pts res.
Proof.
  intros Hvalid H.
  rewrite <- (app_nil_r h) in H at 1.
  destruct (deepcopy_list_spec h pts [] [] res h') as
    (new & memo & Hh & Hok & _ & Hall); auto.
  - apply memo_ok_nil.
  - eauto.
Qed.

(** X10.  A list of waveforms is refused when it is not as long as the
    array has electrodes.  Otherwise every entry of the result is a
    new object with the content of the entry it copies, the objects of
    the caller stay as they are, and the copy shares what the list
    shares: two slots of the result hold the same object exactly when
    the two slots of the list do. *)
Theorem parse_pulse_trains_list
    (pts : list loc) (implant : ElectrodeArray) (h : heap) :
  (length pts <> length implant ->
   parse_pulse_trains (StimList pts) implant h = Raise count_mismatch) /\
  (length pts = length implant ->
   valid_refs h pts ->
   exists res new,
     parse_pulse_trains (StimList pts) implant h = Ok (res, h ++ new) /\
     length res = length pts /\
     Forall (fun l => (length h <= l < length (h ++ new))%nat) res /\
     contents (h ++ new) res = contents h pts /\
     forall i j, (i < length pts)%nat -> (j < length pts)%nat ->
       (nth i res 0%nat = nth j res 0%nat
        <-> nth i pts 0%nat = nth j pts 0%nat)).
Proof.
  unfold parse_pulse_trains, num_electrodes. split.
  - intro Hne.
    destruct (Z.of_nat (length pts) =? Z.of_nat (length implant)) eqn:E;
      [|reflexivity].
    apply Z.eqb_eq in E. lia.
  - intros Hlen Hvalid.
    assert (Heqb : (Z.of_nat (length pts) =? Z.of_nat (length implant))
                   = true) by (apply Z.eqb_eq; lia).
    rewrite Heqb. simpl negb. cbv iota.
    destruct (deepcopy_list [] pts h) as [res h'] eqn:E.
    destruct (deepcopy_list_fresh h pts res h' Hvalid E)
      as (new & memo & -> & [Hfind Hinj] & Hall).
    exists res, new. split; [reflexivity|].
    assert (Hlen' : length res = length pts)
      by (symmetry; exact (Forall2_length Hall)).
    split; [exact Hlen'|]. split; [|split].
    + apply (Forall2_Forall_r _ _ _ _ Hall).
      intros x y Hxy. apply (Hfind x y Hxy).
    + unfold contents. apply (Forall2_map_eq _ _ _ _ _ Hall).
      intros x y Hxy. apply (Hfind x y Hxy).
    + intros i j Hi Hj.
      pose proof (Forall2_nth _ pts res i 0%nat 0%nat Hall Hi) as Hmi.
      pose proof (Forall2_nth _ pts res j 0%nat 0%nat Hall Hj) as Hmj.
      cbv beta in Hmi, Hmj. split; intro Heq.
      * rewrite Heq in Hmi. exact (Hinj _ _ _ Hmi Hmj).
      * rewrite Heq in Hmi. congruence.
Qed.

(** The list [[a, b, a]] for three electrodes: the first and the last
    copy are one object, the middle one is another. *)
Lemma parse_pulse_trains_list_witness :
  let a := mkTimeSeries (dec 1 1000) [dec 1 1; dec 2 1] in
  let b := mkTimeSeries (dec 1 1000) [0%Qc; dec 3 1] in
  let implant :=
    [mkElectrode "A" 0%Qc 0%Qc 1%Qc; mkElectrode "B" 1%Qc 0%Qc 1%Qc;
     mkElectrode "C" (dec 2 1) 0%Qc 1%Qc] in
  parse_pulse_trains (StimList [0%nat; 1%nat]) implant [a; b]
    = Raise count_mismatch /\
  exists res new,
    parse_pulse_trains (StimList [0%nat; 1%nat; 0%nat]) implant [a; b]
      = Ok (res, [a; b] ++ new) /\
    contents ([a; b] ++ new) res = [a; b; a] /\
    nth 0 res 0%nat = nth 2 res 0%nat /\
    nth 0 res 0%nat <> nth 1 res 0%nat.
Proof.
  cbv zeta.
  set (a := mkTimeSeries (dec 1 1000) [dec 1 1; dec 2 1]).
  set (b := mkTimeSeries (dec 1 1000) [0%Qc; dec 3 1]).
  set (implant := [mkElectrode "A" 0%Qc 0%Qc 1%Qc;
                   mkElectrode "B" 1%Qc 0%Qc 1%Qc;
                   mkElectrode "C" (dec 2 1) 0%Qc 1%Qc]).
  split.
  - refine (proj1 (parse_pulse_trains_list [0%nat; 1%nat] implant [a; b]) _).
    simpl. lia.
  - assert (Hvalid : valid_refs [a; b] [0%nat; 1%nat; 0%nat])
      by (repeat constructor).
    destruct (proj2 (parse_pulse_trains_list [0%nat; 1%nat; 0%nat] implant
                       [a; b]) eq_refl Hvalid)
      as (res & new & Hrun & _ & _ & Hcontents & Hshare).
    exists res, new. split; [exact Hrun|]. split; [exact Hcontents|]. split.
    + apply (Hshare 0%nat 2%nat); simpl; lia.
    + intro Heq. apply (Hshare 0%nat 1%nat) in Heq; simpl; try lia.
      simpl in Heq. discriminate.
Defined.

Lemma nth_list_set {A : Type} (xs : list A) (i j : nat) (v d : A) :
  nth j (list_set xs i v) d = nth j xs d \/ nth j (list_set xs i v) d = v.
Proof.
  revert i j. induction xs as [|x xs IH]; intros [|i] [|j]; simpl; auto.
Qed.

Lemma deepcopy_list_grows (xs : list loc) :
  forall (memo : list (loc * loc)) (h : heap) (ys : list loc) (h' : heap),
    deepcopy_list memo xs h = (ys, h') ->
    length ys = length xs /\ exists new, h' = h ++ new.
Proof.
  induction xs as [|x xs IH]; intros memo h ys h' H; simpl in H.
  - injection H as <- <-. split; [reflexivity|]. exists [].
    symmetry. apply app_nil_r.
  - destruct (memo_find memo x) as [y|].
    + destruct (deepcopy_list memo xs h) as [ys0 h1] eqn:E.
      injection H as <- <-. destruct (IH _ _ _ _ E) as [Hlen Hnew].
      simpl. auto.
    + unfold deepcopy, alloc in H. cbv beta iota in H.
      match type of H with
      | context [deepcopy_list ?m ?l ?hh] =>
          destruct (deepcopy_list m l hh) as [ys0 h1] eqn:E
      end.
      injection H as <- <-. destruct (IH _ _ _ _ E) as [Hlen [new ->]].
      simpl. split; [congruence|]. rewrite <- app_assoc. eauto.
Qed.

(** What the loop over the items of a dict has done when it is through:
    every key names an electrode, the list is as long as before, each
    slot holds what it held or an object made by the loop, and the
    heap has only grown. *)
Lemma assign_items_inv (implant : ElectrodeArray)
    (items : list (string * loc)) :
  forall (pt : list loc) (h : heap) (pt' : list loc) (h' : heap),
    assign_items items implant pt h = Ok (pt', h') ->
    length pt' = length pt /\
    (exists new, h' = h ++ new) /\
    (forall j, nth j pt' 0%nat = nth j pt 0%nat
               \/ (length h <= nth j pt' 0%nat < length h')%nat) /\
    (forall key value, In (key, value) items ->
       exists i, get_index implant key = Some i).
Proof.
  induction items as [|[key value] items IH]; intros pt h pt' h' H.
  - injection H as <- <-. split; [reflexivity|].
    split; [exists []; symmetry; apply app_nil_r|].
    split; [auto | intros k v []].
  - simpl in H. destruct (get_index implant key) as [el_idx|] eqn:E;
      [|discriminate].
    unfold deepcopy, alloc in H. apply IH in H.
    destruct H as (Hlen & [new ->] & Hslots & Hkeys).
    rewrite list_set_length in Hlen. split; [exact Hlen|].
    split; [rewrite <- app_assoc; eauto|]. split.
    + intro j. rewrite !length_app in *. simpl in *.
      destruct (Hslots j) as [Hsame | Hnew]; [|right; lia].
      destruct (nth_list_set pt el_idx j (length h) 0%nat) as [Hold | Hset].
      * left. congruence.
      * right. rewrite Hsame, Hset. lia.
    + intros k v [Hin | Hin].
      * injection Hin as <- <-. eauto.
      * eauto.
Qed.

Lemma get_index_named (implant : ElectrodeArray) (key : string) (i : nat) :
  get_index implant key = Some i ->
  exists e, nth_error implant i = Some e /\ name e = key.
Proof.
  intro H. apply get_index_from_name in H.
  destruct H as (_ & e & Hnth & Hname). rewrite Nat.sub_0_r in Hnth. eauto.
Qed.

(** X11.  What [parse_pulse_trains] returns has one entry per
    electrode for a dict and for a list, and one entry for a single
    waveform, which it takes for at most one electrode; a dict gets
    through only if every key is the name of an electrode; and the
    objects of the caller are all still there, unchanged. *)
Theorem parse_pulse_trains_one_per_electrode
    (stim : stimulus) (implant : ElectrodeArray) (h : heap)
    (pt : list loc) (h' : heap) :
  parse_pulse_trains stim implant h = Ok (pt, h') ->
  (exists new, h' = h ++ new) /\
  match stim with
  | StimSeries _ => length pt = 1%nat /\ (length implant <= 1)%nat
  | StimDict items =>
      length pt = length implant /\
      items <> [] /\
      forall key, In key (map fst items) ->
        exists i e, get_index implant key = Some i /\
                    nth_error implant i = Some e /\ name e = key
  | StimList pts => length pt = length implant /\ length pts = length implant
  end.
Proof.
  intro H. destruct stim as [s | items | pts]; unfold parse_pulse_trains in H.
  - unfold num_electrodes in H.
    destruct (Z.of_nat (length implant) >? 1) eqn:E; [discriminate|].
    unfold deepcopy, alloc in H. injection H as <- <-.
    split; [eauto|]. split; [reflexivity|].
    destruct (Z.gtb_spec (Z.of_nat (length implant)) 1); [discriminate|lia].
  - destruct items as [|[key0 first] items]; [discriminate|].
    unfold alloc in H. apply assign_items_inv in H.
    destruct H as (Hlen & [new ->] & _ & Hkeys).
    split; [rewrite <- app_assoc; eauto|].
    split.
    { rewrite Hlen, repeat_length. unfold num_electrodes.
      apply Nat2Z.id. }
    split; [discriminate|].
    intros key Hin. apply in_map_iff in Hin.
    destruct Hin as ([k v] & <- & Hin).
    destruct (Hkeys k v Hin) as [i Hi].
    destruct (get_index_named implant k i Hi) as (e & Hnth & Hname).
    exists i, e. auto.
  - unfold num_electrodes in H.
    destruct (Z.of_nat (length pts) =? Z.of_nat (length implant)) eqn:E;
      [|discriminate].
    apply Z.eqb_eq in E. simpl in H. injection H as H.
    apply deepcopy_list_grows in H. destruct H as [Hlen Hnew].
    split; [exact Hnew|]. split; lia.
Qed.

(** The dict [{'C': pt, 'A': pt}] for the electrodes A, B and C. *)
Lemma parse_pulse_trains_one_per_electrode_witness :
  let pt0 := mkTimeSeries (dec 1 1000) [dec 1 1; dec 2 1] in
  let implant :=
    [mkElectrode "A" 0%Qc 0%Qc 1%Qc; mkElectrode "B" 1%Qc 0%Qc 1%Qc;
     mkElectrode "C" (dec 2 1) 0%Qc 1%Qc] in
  exists pt h',
    parse_pulse_trains (StimDict [("C", 0%nat); ("A", 0%nat)]) implant [pt0]
      = Ok (pt, h') /\
    length pt = 3%nat /\
    exists new, h' = [pt0] ++ new.
Proof.
  cbv zeta.
  destruct (parse_pulse_trains (StimDict [("C", 0%nat); ("A", 0%nat)])
              [mkElectrode "A" 0%Qc 0%Qc 1%Qc; mkElectrode "B" 1%Qc 0%Qc 1%Qc;
               mkElectrode "C" (dec 2 1) 0%Qc 1%Qc]
              [mkTimeSeries (dec 1 1000) [dec 1 1; dec 2 1]])
    as [[pt h']|e] eqn:E; [|vm_compute in E; discriminate].
  exists pt, h'. split; [reflexivity|].
  destruct (parse_pulse_trains_one_per_electrode _ _ _ _ _ E)
    as (Hnew & Hlen & _).
  split; [exact Hlen | exact Hnew].
Defined.

Lemma get_index_from_found (implant : ElectrodeArray) (key : string) :
  forall k, In key (map name implant) ->
    exists i, get_index_from k implant key = Some i.
Proof.
  induction implant as [|e implant IH]; intros k Hin; [destruct Hin|].
  simpl. destruct (String.eqb (name e) key) eqn:E; [eauto|].
  apply IH. destruct Hin as [Hin | Hin]; [|exact Hin].
  apply String.eqb_neq in E. contradiction.
Qed.

Lemma get_index_from_missing (implant : ElectrodeArray) (key : string) :
  forall k, ~ In key (map name implant) ->
    get_index_from k implant key = None.
Proof.
  induction implant as [|e implant IH]; intros k Hnot; [reflexivity|].
  simpl. destruct (String.eqb (name e) key) eqn:E.
  - apply String.eqb_eq in E. exfalso. apply Hnot. now left.
  - apply IH. intro Hin. apply Hnot. now right.
Qed.

Lemma assign_items_unknown (implant : ElectrodeArray)
    (known : list (string * loc)) (key : string) (value : loc)
    (rest : list (string * loc)) :
  (forall k, In k (map fst known) -> In k (map name implant)) ->
  ~ In key (map name implant) ->
  forall (pt : list loc) (h : heap),
    assign_items (known ++ (key, value) :: rest) implant pt h
    = Raise (unknown_electrode key).
Proof.
  intros Hknown Hkey. induction known as [|[k v] known IH]; intros pt h.
  - simpl. unfold get_index.
    rewrite (get_index_from_missing implant key 0 Hkey). reflexivity.
  - simpl. unfold get_index.
    destruct (get_index_from_found implant k 0) as [i ->];
      [apply Hknown; now left|].
    unfold deepcopy, alloc. apply IH.
    intros k' Hk'. apply Hknown. now right.
Qed.

(** X12.  What the dict case refuses: an empty dict, with the
    [IndexError] of taking its first key; and a dict with a key that
    is not the name of an electrode, with the [ValueError] that names
    the first such key in the order of the dict. *)
Theorem parse_pulse_trains_dict_refusals
    (implant : ElectrodeArray) (h : heap) :
  parse_pulse_trains (StimDict []) implant h = Raise no_first_key /\
  forall (known : list (string * loc)) (key : string) (value : loc)
         (rest : list (string * loc)),
    (forall k, In k (map fst known) -> In k (map name implant)) ->
    ~ In key (map name implant) ->
    parse_pulse_trains (StimDict (known ++ (key, value) :: rest)) implant h
    = Raise (unknown_electrode key).
Proof.
  split; [reflexivity|].
  intros known key value rest Hknown Hkey. unfold parse_pulse_trains.
  destruct (known ++ (key, value) :: rest) as [|[k0 first] items] eqn:E.
  - destruct known; discriminate.
  - unfold alloc. rewrite <- E.
    apply assign_items_unknown; assumption.
Qed.

(** The dict [{'A': pt, 'Z': pt, 'Y': pt}] for the electrodes A, B, C:
    the refusal names Z. *)
Lemma parse_pulse_trains_dict_refusals_witness :
  let pt0 := mkTimeSeries (dec 1 1000) [dec 1 1; dec 2 1] in
  let implant :=
    [mkElectrode "A" 0%Qc 0%Qc 1%Qc; mkElectrode "B" 1%Qc 0%Qc 1%Qc;
     mkElectrode "C" (dec 2 1) 0%Qc 1%Qc] in
  parse_pulse_trains
    (StimDict [("A", 0%nat); ("Z", 0%nat); ("Y", 0%nat)]) implant [pt0]
  = Raise (ValueError "Could not find electrode with name 'Z'").
Proof.
  cbv zeta.
  refine (proj2 (parse_pulse_trains_dict_refusals _ _)
            [("A", 0%nat)] "Z" 0%nat [("Y", 0%nat)] _ _).
  - intros k [<- | []]. simpl. auto.
  - simpl. intros [H | [H | [H | []]]]; discriminate.
Defined.

Lemma get_index_same_key (implant : ElectrodeArray) (k1 k2 : string)
    (i : nat) :
  get_index implant k1 = Some i -> get_index implant k2 = Some i -> k1 = k2.
Proof.
  intros H1 H2.
  destruct (get_index_named _ _ _ H1) as (e1 & Hn1 & <-).
  destruct (get_index_named _ _ _ H2) as (e2 & Hn2 & <-).
  congruence.
Qed.

Lemma Forall_list_set {A : Type} (P : A -> Prop) (xs : list A) (i : nat)
    (v : A) :
  Forall P xs -> P v -> Forall P (list_set xs i v).
Proof.
  intros H Hv. revert i. induction H as [|x xs Hx Hxs IH]; intros [|i];
    simpl; constructor; auto.
Qed.

Lemma Forall_nth_lt (bound : nat) (xs : list nat) (j : nat) :
  Forall (fun l => (l < bound)%nat) xs -> (j < length xs)%nat ->
  (nth j xs 0%nat < bound)%nat.
Proof.
  intro H. revert j. induction H as [|x xs Hx _ IH]; intros [|j] Hj;
    simpl in *; try lia; auto. apply IH. lia.
Qed.

(** The slot of an electrode that a key of the dict names. *)
Lemma assign_items_assigned (implant : ElectrodeArray) (key : string)
    (value : loc) (i : nat) (items : list (string * loc)) :
  get_index implant key = Some i ->
  forall (pt : list loc) (h : heap) (pt' : list loc) (h' : heap),
    assign_items items implant pt h = Ok (pt', h') ->
    NoDup (map fst items) ->
    In (key, value) items ->
    (i < length pt)%nat ->
    (value < length h)%nat ->
    Forall (fun l => (l < length h)%nat) pt ->
    (length h <= nth i pt' 0%nat < length h')%nat /\
    deref h' (nth i pt' 0%nat) = deref h value /\
    forall j, j <> i -> (j < length pt)%nat ->
      nth j pt' 0%nat <> nth i pt' 0%nat.
Proof.
  intro Hkey. induction items as [|[k v] items IH];
    intros pt h pt' h' H Hnodup Hin Hi Hvalue Hpt; [destruct Hin|].
  simpl in H. destruct (get_index implant k) as [el_idx|] eqn:Ek;
    [|discriminate].
  unfold deepcopy, alloc in H.
  inversion Hnodup as [|? ? Hfresh Hnodup']; subst.
  assert (Hpt1 : Forall (fun l => (l < length (h ++ [deref h v]))%nat)
                   (list_set pt el_idx (length h))).
  { apply Forall_list_set; [|rewrite length_app; simpl; lia].
    apply (Forall_impl _ (P := fun l => (l < length h)%nat)); [|exact Hpt].
    intros l Hl. rewrite length_app. simpl. lia. }
  destruct Hin as [Hin | Hin].
  - injection Hin as -> ->.
    assert (el_idx = i) by congruence. subst el_idx.
    pose proof (assign_items_inv _ _ _ _ _ _ H)
      as (_ & [new Hnew] & Hslots & _).
    pose proof (assign_items_frame implant i items _ _ _ _ H) as Hframe.
    destruct Hframe as (Hnth & _ & _).
    { intros k' v' Hin' Hget. apply Hfresh.
      rewrite (get_index_same_key implant key k' i Hkey Hget).
      apply in_map_iff. exists (k', v'). auto. }
    rewrite Hnth, list_set_nth_same by exact Hi.
    subst h'. rewrite !length_app in *. simpl in *.
    split; [lia|]. split.
    + rewrite <- app_assoc. unfold deref at 1.
      rewrite app_nth2 by lia. rewrite Nat.sub_diag. reflexivity.
    + intros j Hj Hjl. destruct (Hslots j) as [Hsame | Hnew'].
      * rewrite Hsame, list_set_nth_other by exact Hj.
        pose proof (Forall_nth_lt _ _ j Hpt Hjl) as Hlt.
        unfold loc in *. lia.
      * lia.
  - assert (Hv1 : (value < length (h ++ [deref h v]))%nat)
      by (rewrite length_app; simpl; lia).
    assert (Hi1 : (i < length (list_set pt el_idx (length h)))%nat)
      by (rewrite list_set_length; exact Hi).
    destruct (IH _ _ _ _ H Hnodup' Hin Hi1 Hv1 Hpt1)
      as (Hrange & Hcontent & Hother).
    rewrite length_app in Hrange. simpl in Hrange.
    split; [lia|]. split.
    + rewrite Hcontent. apply deref_app, Hvalue.
    + intros j Hj Hjl. apply Hother; [exact Hj|].
      rewrite list_set_length. exact Hjl.
Qed.

(** X13.  In the dict case the slot of an electrode that a key names
    holds a new object with the content of the waveform of that key:
    it is neither an object of the caller nor the zero waveform, and
    no other slot holds it. *)
Theorem parse_pulse_trains_named_gets_copy
    (items : list (string * loc)) (implant : ElectrodeArray) (h : heap)
    (pt : list loc) (h' : heap) (key : string) (value : loc) (i : nat) :
  parse_pulse_trains (StimDict items) implant h = Ok (pt, h') ->
  NoDup (map fst items) ->
  In (key, value) items ->
  (value < length h)%nat ->
  get_index implant key = Some i ->
  deref h' (nth i pt 0%nat) = deref h value /\
  (length h < nth i pt 0%nat < length h')%nat /\
  forall j, j <> i -> (j < length implant)%nat ->
    nth j pt 0%nat <> nth i pt 0%nat.
Proof.
  intros H Hnodup Hin Hvalue Hkey. unfold parse_pulse_trains in H.
  destruct items as [|[key0 first] rest] eqn:Eitems; [destruct Hin|].
  rewrite <- Eitems in *. unfold alloc in H.
  set (zero := mkTimeSeries (tsample (deref h first))
                 (np_zeros_like (data (deref h first)))) in *.
  assert (Hi : (i < length implant)%nat).
  { destruct (get_index_named _ _ _ Hkey) as (e & Hnth & _).
    apply nth_error_Some. congruence. }
  unfold num_electrodes in H. rewrite Nat2Z.id in H.
  destruct (assign_items_assigned implant key value i items Hkey _ _ _ _ H
              Hnodup Hin)
    as (Hrange & Hcontent & Hother).
  - rewrite repeat_length. exact Hi.
  - rewrite length_app. simpl. lia.
  - apply Forall_repeat. rewrite length_app. simpl. lia.
  - rewrite length_app in Hrange. simpl in Hrange.
    split; [rewrite Hcontent; apply deref_app, Hvalue|].
    split; [lia|].
    intros j Hj Hjl. apply Hother; [exact Hj|].
    rewrite repeat_length. exact Hjl.
Qed.

(** The dict [{'C': a, 'A': b}] for the electrodes A, B and C: the
    slot of A holds a copy of [b] that no other slot holds. *)
Lemma parse_pulse_trains_named_gets_copy_witness :
  let a := mkTimeSeries (dec 1 1000) [dec 1 1; dec 2 1] in
  let b := mkTimeSeries (dec 1 1000) [0%Qc; dec 3 1] in
  let implant :=
    [mkElectrode "A" 0%Qc 0%Qc 1%Qc; mkElectrode "B" 1%Qc 0%Qc 1%Qc;
     mkElectrode "C" (dec 2 1) 0%Qc 1%Qc] in
  exists pt h',
    parse_pulse_trains (StimDict [("C", 0%nat); ("A", 1%nat)]) implant [a; b]
      = Ok (pt, h') /\
    deref h' (nth 0 pt 0%nat) = b /\
    nth 1 pt 0%nat <> nth 0 pt 0%nat /\
    nth 2 pt 0%nat <> nth 0 pt 0%nat.
Proof.
  cbv zeta.
  set (a := mkTimeSeries (dec 1 1000) [dec 1 1; dec 2 1]).
  set (b := mkTimeSeries (dec 1 1000) [0%Qc; dec 3 1]).
  set (implant := [mkElectrode "A" 0%Qc 0%Qc 1%Qc;
                   mkElectrode "B" 1%Qc 0%Qc 1%Qc;
                   mkElectrode "C" (dec 2 1) 0%Qc 1%Qc]).
  destruct (parse_pulse_trains (StimDict [("C", 0%nat); ("A", 1%nat)])
              implant [a; b]) as [[pt h']|e] eqn:E;
    [|vm_compute in E; discriminate].
  exists pt, h'. split; [reflexivity|].
  assert (Hnodup : NoDup (map fst [("C", 0%nat); ("A", 1%nat)])).
  { simpl. constructor; [intros [H | []]; discriminate|].
    constructor; [intros [] | constructor]. }
  destruct (parse_pulse_trains_named_gets_copy
              [("C", 0%nat); ("A", 1%nat)] implant [a; b] pt h' "A" 1%nat
              0%nat E Hnodup (or_intror (or_introl eq_refl))
              (le_n 2) eq_refl)
    as (Hcontent & _ & Hother).
  split; [exact Hcontent|]. split.
  - apply Hother; [discriminate | simpl; lia].
  - apply Hother; [discriminate | simpl; lia].
Defined.

Lemma valid_refs_grow (h new : heap) (refs : list loc) :
  valid_refs h refs -> valid_refs (h ++ new) refs.
Proof.
  unfold valid_refs. apply Forall_impl. intros l Hl.
  rewrite length_app. lia.
Qed.

(** What [parse_pulse_trains] returns points into the heap it leaves. *)
Lemma parse_pulse_trains_valid (stim : stimulus) (implant : ElectrodeArray)
    (h : heap) (res : list loc) (h' : heap) :
  parse_pulse_trains stim implant h = Ok (res, h') ->
  valid_refs h (refs_of stim) ->
  valid_refs h' res.
Proof.
  intros H Hvalid. destruct stim as [s | items | pts];
    unfold parse_pulse_trains in H.
  - destruct (num_electrodes implant >? 1); [discriminate|].
    unfold deepcopy, alloc in H. injection H as <- <-.
    constructor; [|constructor]. rewrite length_app. simpl. lia.
  - destruct items as [|[key0 first] items]; [discriminate|].
    unfold alloc in H.
    pose proof (assign_items_inv _ _ _ _ _ _ H)
      as (Hlen & [new ->] & Hslots & _).
    apply Forall_forall. intros l Hl.
    destruct (In_nth _ _ 0%nat Hl) as (j & Hj & <-).
    rewrite !length_app in *. simpl in *. unfold loc in *.
    destruct (Hslots j) as [Hsame | Hnew]; [|lia].
    rewrite Hsame, nth_repeat_lt by (rewrite Hlen in Hj;
                                     rewrite repeat_length in Hj; exact Hj).
    lia.
  - destruct (negb _); [discriminate|]. injection H as H.
    destruct (deepcopy_list_fresh h pts res h' Hvalid H)
      as (new & memo & -> & [Hfind _] & Hall).
    apply (Forall2_Forall_r _ _ _ _ Hall).
    intros x y Hxy. apply (Hfind x y Hxy).
Qed.

(** X14.  What [parse_pulse_trains] returns for a dict or a list, or
    for a single waveform and an array of one electrode, is accepted
    again as a list for the same array, and the entries of the second
    result have the contents of the entries of the first. *)
Theorem parse_pulse_trains_round_trip
    (stim : stimulus) (implant : ElectrodeArray) (h : heap)
    (res : list loc) (h' : heap) :
  parse_pulse_trains stim implant h = Ok (res, h') ->
  valid_refs h (refs_of stim) ->
  (forall s, stim = StimSeries s -> length implant = 1%nat) ->
  exists res2 new,
    parse_pulse_trains (StimList res) implant h' = Ok (res2, h' ++ new) /\
    contents (h' ++ new) res2 = contents h' res.
Proof.
  intros H Hvalid Hone.
  pose proof (parse_pulse_trains_valid _ _ _ _ _ H Hvalid) as Hres.
  assert (Hlen : length res = length implant).
  { destruct stim as [s | items | pts]; unfold parse_pulse_trains in H.
    - destruct (num_electrodes implant >? 1); [discriminate|].
      unfold deepcopy, alloc in H. injection H as <- <-.
      symmetry. exact (Hone s eq_refl).
    - destruct items as [|[key0 first] items]; [discriminate|].
      unfold alloc in H. apply assign_items_inv in H.
      destruct H as (Hlen & _). rewrite Hlen, repeat_length.
      unfold num_electrodes. apply Nat2Z.id.
    - unfold num_electrodes in H.
      destruct (Z.of_nat (length pts) =? Z.of_nat (length implant)) eqn:E;
        [|discriminate].
      apply Z.eqb_eq in E. simpl in H. injection H as H.
      apply deepcopy_list_grows in H. destruct H as [Hlen _]. lia. }
  unfold parse_pulse_trains, num_electrodes.
  rewrite Hlen, Z.eqb_refl. simpl negb. cbv iota.
  destruct (deepcopy_list [] res h') as [res2 h2] eqn:E.
  destruct (deepcopy_list_fresh h' res res2 h2 Hres E)
    as (new & memo & -> & [Hfind _] & Hall).
  exists res2, new. split; [reflexivity|].
  unfold contents. apply (Forall2_map_eq _ _ _ _ _ Hall).
  intros x y Hxy. apply (Hfind x y Hxy).
Qed.

(** The result for the dict [{'A': pt}] and the electrodes A, B, C,
    parsed again as a list: a waveform and two zero waveforms. *)
Lemma parse_pulse_trains_round_trip_witness :
  let pt0 := mkTimeSeries (dec 1 1000) [dec 1 1; dec 2 1] in
  let zero := mkTimeSeries (dec 1 1000) [0%Qc; 0%Qc] in
  let implant :=
    [mkElectrode "A" 0%Qc 0%Qc 1%Qc; mkElectrode "B" 1%Qc 0%Qc 1%Qc;
     mkElectrode "C" (dec 2 1) 0%Qc 1%Qc] in
  exists res h' res2 new,
    parse_pulse_trains (StimDict [("A", 0%nat)]) implant [pt0]
      = Ok (res, h') /\
    parse_pulse_trains (StimList res) implant h' = Ok (res2, h' ++ new) /\
    contents (h' ++ new) res2 = [pt0; zero; zero].
Proof.
  cbv zeta.
  set (pt0 := mkTimeSeries (dec 1 1000) [dec 1 1; dec 2 1]).
  set (implant := [mkElectrode "A" 0%Qc 0%Qc 1%Qc;
                   mkElectrode "B" 1%Qc 0%Qc 1%Qc;
                   mkElectrode "C" (dec 2 1) 0%Qc 1%Qc]).
  destruct (parse_pulse_trains (StimDict [("A", 0%nat)]) implant [pt0])
    as [[res h']|e] eqn:E; [|vm_compute in E; discriminate].
  assert (Hvalid : valid_refs [pt0] (refs_of (StimDict [("A", 0%nat)])))
    by (repeat constructor).
  destruct (parse_pulse_trains_round_trip _ _ _ _ _ E Hvalid)
    as (res2 & new & Hrun & Hcontents); [discriminate|].
  exists res, h', res2, new. split; [reflexivity|]. split; [exact Hrun|].
  rewrite Hcontents. vm_compute in E. injection E as <- <-. reflexivity.
Defined.

(** ** image2pulsetrain: what a call that returns has passed *)

Lemma collect_inv {A : Type} (rs : list (result A)) (l : list A) :
  collect rs = Ok l -> Forall2 (fun r a => r = Ok a) rs l.
Proof.
  revert l. induction rs as [|r rs IH]; intros l H; simpl in H.
  - injection H as <-. constructor.
  - apply bind_Ok_inv in H. destruct H as (a & -> & H).
    apply bind_Ok_inv in H. destruct H as (l' & Hl' & H).
    injection H as <-. constructor; auto.
Qed.

Lemma collect_map_inv {A B : Type} (f : A -> result B) (xs : list A)
    (l : list B) :
  collect (map f xs) = Ok l ->
  length l = length xs /\
  Forall (fun b => exists x, In x xs /\ f x = Ok b) l.
Proof.
  revert l. induction xs as [|x xs IH]; intros l H; simpl in H.
  - injection H as <-. split; [reflexivity | constructor].
  - apply bind_Ok_inv in H. destruct H as (b & Hb & H).
    apply bind_Ok_inv in H. destruct H as (l' & Hl' & H).
    injection H as <-. destruct (IH _ Hl') as [Hlen Hall].
    split; [simpl; congruence|]. constructor.
    + exists x. split; [now left | exact Hb].
    + apply (Forall_impl _ (P := fun b => exists x0, In x0 xs /\ f x0 = Ok b));
        [|exact Hall].
      intros b' (x' & Hin & Hf). exists x'. split; [now right | exact Hf].
Qed.

Lemma maximize_contrast_length (max_contrast : bool) (magn out : samples) :
  maximize_contrast max_contrast magn = Ok out -> length out = length magn.
Proof.
  unfold maximize_contrast. destruct max_contrast.
  - intro H. apply bind_Ok_inv in H. destruct H as (lo & _ & H).
    apply bind_Ok_inv in H. destruct H as (hi & _ & H).
    destruct (Qcltb lo hi); injection H as <-;
      [apply length_map | reflexivity].
  - intro H. injection H as <-. reflexivity.
Qed.

Lemma PulseTrain_Ok_step
    (ts freq amp dur delay pulse_dur interphase_dur : Qc)
    (pulsetype pulseorder : string) (pt : TimeSeries) :
  PulseTrain ts freq amp dur delay pulse_dur interphase_dur
    pulsetype pulseorder = Ok pt ->
  (0 < ts)%Qc.
Proof.
  intro H. destruct (Qclt_le_dec 0%Qc ts) as [Hts|Hts]; [exact Hts|].
  apply Qcleb_true in Hts. unfold PulseTrain in H. rewrite Hts in H.
  discriminate.
Qed.

(** X16.  When [image2pulsetrain] returns, the range was a pair with
    [lo < hi], the array had an electrode, the coding was 'amplitude'
    or 'frequency' and the step was positive; it returns one pulse
    train per electrode, each with the sampling step asked for and all
    of one length, [round(dur / tsample)] samples for a [dur] that is
    not negative. *)
Theorem image2pulsetrain_returns
    (resize : grid -> Qc * Qc -> grid)
    (receptive_field : Electrode -> grid -> grid -> string -> option Qc -> grid)
    (img : grid) (implant : ElectrodeArray)
    (coding : string) (valrange : list Qc) (max_contrast : bool)
    (const_amp const_freq : Qc) (rftype : string) (rfsize : option Qc)
    (invert : bool) (ts dur pulsedur interphasedur : Qc)
    (pulsetype : string) (pulses : list TimeSeries) :
  image2pulsetrain resize receptive_field img implant coding valrange
    max_contrast const_amp const_freq rftype rfsize invert ts dur pulsedur
    interphasedur pulsetype = Ok pulses ->
  (exists lo hi, valrange = [lo; hi] /\ (lo < hi)%Qc) /\
  implant <> [] /\
  (coding = "amplitude" \/ coding = "frequency") /\
  (0 < ts)%Qc /\
  length pulses = length implant /\
  Forall (fun pt =>
            tsample pt = ts /\
            (0 <= np_round (dur / ts)%Qc ->
             size (data pt) = np_round (dur / ts)%Qc)) pulses.
Proof.
  intro H. unfold image2pulsetrain in H.
  destruct valrange as [|lo [|hi [|? ?]]]; try discriminate.
  destruct (Qcltb lo hi) eqn:Erange; [|discriminate]. simpl negb in H.
  cbv iota in H. apply Qcltb_true in Erange.
  apply bind_Ok_inv in H. destruct H as (top & _ & H).
  match type of H with
  | (if ?c then _ else _) = _ => destruct c; [discriminate|]
  end.
  destruct implant as [|e1 rest] eqn:Eimplant; [discriminate|].
  rewrite <- Eimplant in *.
  apply bind_Ok_inv in H. destruct H as (xlo & _ & H).
  apply bind_Ok_inv in H. destruct H as (xhi & _ & H).
  apply bind_Ok_inv in H. destruct H as (ylo & _ & H).
  apply bind_Ok_inv in H. destruct H as (yhi & _ & H).
  match type of H with
  | (let (_, _) := ?m in _) = _ => destruct m as [yg xg]
  end.
  apply bind_Ok_inv in H. destruct H as (magn & Hmagn & H).
  apply bind_Ok_inv in H. destruct H as (magn' & Hcontrast & H).
  apply collect_map_inv in Hmagn. destruct Hmagn as [Hlen _].
  apply maximize_contrast_length in Hcontrast.
  apply collect_map_inv in H. destruct H as [Hpulses Hall].
  unfold scale_to_range in Hpulses. rewrite length_map in Hpulses.
  assert (Hcount : length pulses = length implant) by congruence.
  assert (Heach : Forall (fun pt =>
            (coding = "amplitude" \/ coding = "frequency") /\
            (0 < ts)%Qc /\ tsample pt = ts /\
            (0 <= np_round (dur / ts)%Qc ->
             size (data pt) = np_round (dur / ts)%Qc)) pulses).
  { apply (Forall_impl _ (P := fun b => exists x,
             In x (scale_to_range lo hi magn') /\
             encode coding const_amp const_freq ts dur pulsedur
               interphasedur pulsetype x = Ok b)); [|exact Hall].
    intros pt (m & _ & Hpt). unfold encode in Hpt.
    apply bind_Ok_inv in Hpt. destruct Hpt as (af & Haf & Hpt).
    pose proof (PulseTrain_Ok_step _ _ _ _ _ _ _ _ _ _ Hpt) as Hts.
    split.
    { destruct (String.eqb coding "amplitude") eqn:Ea;
        [left; apply String.eqb_eq, Ea|].
      destruct (String.eqb coding "frequency") eqn:Ef;
        [right; apply String.eqb_eq, Ef | discriminate]. }
    split; [exact Hts|]. split.
    - destruct (Z.le_gt_cases 0 (np_round (dur / ts)%Qc)) as [Hs|Hs].
      + exact (proj1 (PulseTrain_length_nonneg _ _ _ _ _ _ _ _ _ _ Hts Hs
                        Hpt)).
      + clear Hall Hpulses Hcount. apply Qcleb_false in Hts.
        unfold PulseTrain in Hpt. rewrite Hts in Hpt.
        destruct (np_isclose (snd af) 0%Qc || np_isclose (fst af) 0%Qc).
        * apply bind_Ok_inv in Hpt. destruct Hpt as (z & _ & Hpt).
          injection Hpt as <-. reflexivity.
        * destruct (np_round (1 * default_delay / ts)%Qc <? 0);
            [discriminate|].
          apply bind_Ok_inv in Hpt. destruct Hpt as (dl & _ & Hpt).
          apply bind_Ok_inv in Hpt. destruct Hpt as (bp & _ & Hpt).
          destruct (size (np_scale (fst af) (data bp)) <? 0);
            [discriminate|].
          match type of Hpt with
          | (if ?c then _ else _) = _ => destruct c; [discriminate|]
          end.
          apply bind_Ok_inv in Hpt. destruct Hpt as (gap & _ & Hpt).
          apply bind_Ok_inv in Hpt. destruct Hpt as (train & _ & Hpt).
          apply bind_Ok_inv in Hpt. destruct Hpt as (filled & _ & Hpt).
          injection Hpt as <-. reflexivity.
    - intro Hs.
      exact (proj2 (PulseTrain_length_nonneg _ _ _ _ _ _ _ _ _ _ Hts Hs
                      Hpt)). }
  assert (Hsome : exists pt, In pt pulses).
  { destruct pulses as [|pt pulses]; [|exists pt; now left].
    rewrite Eimplant in Hcount. discriminate. }
  destruct Hsome as [pt0 Hpt0]. rewrite Forall_forall in Heach.
  destruct (Heach pt0 Hpt0) as (Hcoding & Hts & _).
  split; [eauto|]. split; [rewrite Eimplant; discriminate|].
  split; [exact Hcoding|]. split; [exact Hts|]. split; [exact Hcount|].
  apply Forall_forall. intros pt Hpt.
  destruct (Heach pt Hpt) as (_ & _ & Hstep & Hsize). auto.
Qed.

(** Two electrodes and an image of two by two cells, 0.2 on the left
    and 0.8 on the right, with the frequency coded between 10 and
    50 Hz: two pulse trains of ten samples. *)
Lemma image2pulsetrain_returns_witness :
  let resize := fun (img : grid) (_ : Qc * Qc) => img in
  let receptive_field :=
    fun (e : Electrode) (xg _ : grid) (_ : string) (_ : option Qc) =>
      if String.eqb (name e) "A" then [[1%Qc; 1%Qc]; [0%Qc; 0%Qc]]
      else uniform 1%Qc (n_rows xg) (n_cols xg) in
  let implant :=
    [mkElectrode "A" 0%Qc 0%Qc 1%Qc; mkElectrode "B" (dec 3 1) 0%Qc 1%Qc] in
  exists pulses,
    image2pulsetrain resize receptive_field
      [[dec 2 10; dec 8 10]; [dec 2 10; dec 8 10]] implant
      "frequency" [dec 10 1; dec 50 1] true default_amp default_freq "square"
      None false (dec 1 1000) (dec 1 100) (dec 1 1000) (dec 1 1000)
      default_pulsetype = Ok pulses /\
    length pulses = 2%nat /\
    Forall (fun pt => tsample pt = dec 1 1000 /\ size (data pt) = 10) pulses.
Proof.
  cbv zeta.
  match goal with
  | |- exists pulses, ?call = Ok pulses /\ _ =>
      destruct call as [pulses|e] eqn:E; [|vm_compute in E; discriminate]
  end.
  exists pulses. split; [reflexivity|].
  destruct (image2pulsetrain_returns _ _ _ _ _ _ _ _ _ _ _ _ _ _ _ _ _ _ E)
    as (_ & _ & _ & _ & Hcount & Heach).
  split; [exact Hcount|].
  apply (Forall_impl _ (P := fun pt =>
           tsample pt = dec 1 1000 /\
           (0 <= np_round (dec 1 100 / dec 1 1000)%Qc ->
            size (data pt) = np_round (dec 1 100 / dec 1 1000)%Qc)));
    [|exact Heach].
  intros pt [Hstep Hsize]. split; [exact Hstep|].
  apply Hsize. vm_compute. discriminate.
Defined.
